(** * q2-PSEA: the score preprocessor and the PSEA table builder

    A shallow embedding of [q2_PSEA/actions/psea.py] and the properties its
    specification states about it.

    Modelling conventions.
    - Python [str] values are [string]s; byte-wise lexicographic order on the
      UTF-8 encoding coincides with the code-point order Python and numpy use.
    - Python floats (the cells of a score matrix, thresholds, clock readings)
      are real numbers [R]; [math.log] and [math.pow] are [ln] and [Rpower].
    - A pandas [DataFrame] is its row index together with its labelled
      columns, kept as an association list because pandas allows repeated
      column labels and [.loc] returns every column carrying a label.
    - A Python exception is a value of [PyError]; code that can raise returns
      a [Result]. *)

From Stdlib Require Import List String Ascii Bool Arith ZArith Lia.
From Stdlib Require Import Reals Lra Permutation Sorted OrderedTypeEx.
Import ListNotations.

Local Open Scope string_scope.
Local Open Scope list_scope.

(** ** Exceptions and results *)

Inductive PyError : Type :=
| AttributeError (obj attr : string)
| AssertionError (msg : string)
| KeyError (labels : list string)
| IndexError (msg : string)
| ValueError (msg : string)
| ZeroDivisionError
| TypeError (msg : string)
| IsADirectoryError (path : string)
| FileExistsError (path : string)
| FileNotFoundError (path : string)
| CollaboratorError (who : string).

Inductive Result (A : Type) : Type :=
| Ok (a : A)
| Err (e : PyError).

Arguments Ok {A} a.
Arguments Err {A} e.

Definition rbind {A B} (r : Result A) (k : A -> Result B) : Result B :=
  match r with
  | Ok a => k a
  | Err e => Err e
  end.

Fixpoint map_result {A B} (f : A -> Result B) (l : list A) : Result (list B) :=
  match l with
  | [] => Ok []
  | a :: t =>
      rbind (f a) (fun b => rbind (map_result f t) (fun bs => Ok (b :: bs)))
  end.

(** ** Data model *)

(** A pair is the tuple of tab-separated fields of one line of the pairs
    file: baseline replicate first, treatment replicate second. *)
Definition Pair := list string.

Definition Column := (string * list R)%type.

Record DataFrame : Type := mkFrame {
  df_index : list string;
  df_columns : list Column
}.

Definition frame_labels (df : DataFrame) : list string :=
  map fst (df_columns df).

(** pandas keeps every column as long as the row index. *)
Definition wf_frame (df : DataFrame) : Prop :=
  Forall (fun c : Column => List.length (snd c) = List.length (df_index df))
         (df_columns df).

(** ** [numpy.unique]: sort, then drop each element equal to its predecessor

    [np.unique] first turns the list of names into an array of fixed-width
    strings.  Such an array pads every name with NUL characters up to the
    longest one and hands a name back without the NUL characters at its end,
    so a name ending in NUL comes back shorter than it went in. *)

Definition nul : ascii := Ascii.zero.

Fixpoint rstrip_nul (s : string) : string :=
  match s with
  | EmptyString => EmptyString
  | String c rest =>
      match rstrip_nul rest with
      | EmptyString => if Ascii.eqb c nul then EmptyString else String c EmptyString
      | kept => String c kept
      end
  end.

(** The names an array of fixed-width strings gives back unchanged. *)
Definition no_trailing_nul (s : string) : Prop := rstrip_nul s = s.

Fixpoint insert_sorted (s : string) (l : list string) : list string :=
  match l with
  | [] => [s]
  | h :: t => if String.leb s h then s :: l else h :: insert_sorted s t
  end.

Definition sort_strings (l : list string) : list string :=
  fold_right insert_sorted [] l.

Fixpoint drop_adjacent_equal (l : list string) : list string :=
  match l with
  | [] => []
  | a :: t =>
      match t with
      | [] => [a]
      | b :: _ =>
          if String.eqb a b then drop_adjacent_equal t
          else a :: drop_adjacent_equal t
      end
  end.

Definition np_unique (l : list string) : list string :=
  drop_adjacent_equal (sort_strings (map rstrip_nul l)).

(** ** [DataFrame.loc[:, labels]] with a list of labels

    Every label must occur among the column labels, otherwise pandas raises
    [KeyError] listing the labels it could not find.  A label carried by
    several columns selects all of them. *)

Definition columns_named (df : DataFrame) (label : string) : list Column :=
  filter (fun c : Column => String.eqb (fst c) label) (df_columns df).

Definition has_label (df : DataFrame) (label : string) : bool :=
  existsb (String.eqb label) (frame_labels df).

Definition missing_labels (df : DataFrame) (labels : list string) : list string :=
  filter (fun l => negb (has_label df l)) labels.

Definition loc_columns (df : DataFrame) (labels : list string) : Result DataFrame :=
  match missing_labels df labels with
  | [] => Ok (mkFrame (df_index df) (flat_map (columns_named df) labels))
  | m :: ms => Err (KeyError (m :: ms))
  end.

(** [DataFrame.apply] with a function acting on every cell of every column:
    index and labels are kept. *)
Definition apply_values (f : R -> R) (df : DataFrame) : DataFrame :=
  mkFrame (df_index df)
          (map (fun c : Column => (fst c, map f (snd c))) (df_columns df)).

Definition apply_values_result (f : R -> Result R) (df : DataFrame)
  : Result DataFrame :=
  rbind (map_result
           (fun c : Column =>
              rbind (map_result f (snd c)) (fun vs => Ok (fst c, vs)))
           (df_columns df))
        (fun cols => Ok (mkFrame (df_index df) cols)).

(** The cell in column [j] (by position) and row [i]. *)
Definition cell (df : DataFrame) (j i : nat) : option R :=
  match nth_error (df_columns df) j with
  | Some c => nth_error (snd c) i
  | None => None
  end.

(** ** [math.pow] and [math.log] *)

(** [math.pow x y] on a positive [x]. *)
Definition py_pow (x y : R) : R := Rpower x y.

(** [math.log(val, base)] is [log(val) / log(base)]; a non-positive argument
    is a "math domain error", base 1 divides by zero. *)
Definition py_log (val b : R) : Result R :=
  if Rle_dec val 0 then Err (ValueError "math domain error")
  else if Rle_dec b 0 then Err (ValueError "math domain error")
  else if Req_dec_T b 1 then Err ZeroDivisionError
  else Ok (ln val / ln b)%R.

(** ** [process_scores] *)

Definition base : R := 2%R.
Definition offset : R := 3%R.
Definition power : R := py_pow base offset.

(** [lambda val: 1 if val < 1 else val] *)
Definition clamp (val : R) : R := if Rlt_dec val 1 then 1%R else val.

Definition process_scores (scores : DataFrame) (pairs : list Pair)
  : Result DataFrame :=
  let reps_list := np_unique (List.concat pairs) in
  rbind (loc_columns scores reps_list) (fun processed_scores =>
  let processed_scores := apply_values (fun v => (power + v)%R) processed_scores in
  let processed_scores := apply_values clamp processed_scores in
  apply_values_result (fun val => rbind (py_log val base)
                                        (fun l => Ok (l - offset)%R))
                      processed_scores).

(** The transform as the specification words it. *)
Definition log2 (x : R) : R := (ln x / ln 2)%R.

Definition spec_transform (v : R) : R := (log2 (Rmax 1 (v + 8)) - 3)%R.

(** ** Series, spline records and the tables exchanged with collaborators *)

Record Series : Type := mkSeries {
  s_index : list string;
  s_data : list R
}.

(** [pair_spline_dict]: three lists grown in step by the per-pair loop. *)
Record SplineDict : Type := mkSplineDict {
  sd_x : list R;
  sd_y : list R;
  sd_pair : list string
}.

(** Named sets of peptide identifiers. *)
Definition PeptideSets := list (string * list string).

(** The enrichment engine's result, converted to a data frame: labelled
    columns of cells this component never inspects. *)
Definition PseaTable := list (string * list string).

(** A QIIME 2 artifact or visualization, known here by its identifier. *)
Definition Artifact := string.

Record ZscatterKw : Type := mkZscatterKw {
  z_zscores : Artifact;
  z_pairs_file : string;
  z_spline_file : string;
  z_p_val_access : string;
  z_le_peps_access : string;
  z_taxa_access : string;
  z_highlight_data : string;
  z_highlight_threshold : R
}.

Record VolcanoKw : Type := mkVolcanoKw {
  v_xy_dir : string;
  v_xy_access : list string;
  v_taxa_access : string;
  v_x_threshold : R;
  v_y_threshold : R;
  v_xy_labels : list string;
  v_titles : list string
}.

Inductive Kwargs : Type :=
| KwZscatter (kw : ZscatterKw)
| KwVolcano (kw : VolcanoKw).

Definition kw_taxa_access (kw : Kwargs) : string :=
  match kw with
  | KwZscatter z => z_taxa_access z
  | KwVolcano v => v_taxa_access v
  end.

(** ** The world the action runs in *)

(** Directories and text files by path; paths are compared as written. *)
Record FileSystem : Type := mkFS {
  fs_dirs : list string;
  fs_files : list (string * string)
}.

(** What a [to_csv] call was given to write. *)
Inductive Payload : Type :=
| PFrame (df : DataFrame)
| PPairs (used_pairs : list Pair)
| PSpline (d : SplineDict)
| PTable (t : PseaTable).

Inductive Event : Type :=
| Mkdir (path : string)
| WriteFile (path : string) (data : Payload)
| CallPsea (maxZ deltaZ : Series)
| CallAction (plugin name : string) (kw : Kwargs).

Inductive OutLine : Type :=
| Line (text : string)
| Finished (seconds : R).

Record World : Type := mkWorld {
  w_fs : FileSystem;
  w_stdout : list OutLine;
  w_trace : list Event;
  w_clock : R
}.

Definition set_fs (fs : FileSystem) (w : World) : World :=
  mkWorld fs (w_stdout w) (w_trace w) (w_clock w).

Definition log_event (e : Event) (w : World) : World :=
  mkWorld (w_fs w) (w_stdout w) (w_trace w ++ [e]) (w_clock w).

Definition log_line (l : OutLine) (w : World) : World :=
  mkWorld (w_fs w) (w_stdout w ++ [l]) (w_trace w) (w_clock w).

(** A called action gets keyword arguments and may read files; it returns
    the tuple of its results. *)
Definition Action := Kwargs -> FileSystem -> Result (list Artifact).

(** The code this component calls but does not contain. *)
Record Collaborators : Type := mkCollaborators {
  SPLINE_TYPES : list string;
  py_smooth_spline : list R -> list R -> Result (list R);
  r_cubic_spline : list R -> list R -> Z -> option Z -> Result (list R);
  r_smooth_spline : list R -> list R -> Result (list R);
  remove_peptides :
    DataFrame -> string -> FileSystem -> Result (DataFrame * PeptideSets);
  internal_psea :
    Series -> Series -> PeptideSets -> string -> R -> Z -> Z -> Z ->
    FileSystem -> Result PseaTable;
  ctx_get_action : string -> string -> Result Action;
  ctx_make_artifact : string -> string -> string -> FileSystem -> Result Artifact;
  read_csv : string -> FileSystem -> Result DataFrame;
  to_csv : Payload -> string;
  mkdtemp : FileSystem -> string
}.

(** ** A state and exception monad over the world *)

Definition M (A : Type) : Type := World -> Result A * World.

Definition ret {A} (a : A) : M A := fun w => (Ok a, w).

Definition raise {A} (e : PyError) : M A := fun w => (Err e, w).

Definition lift {A} (r : Result A) : M A := fun w => (r, w).

Definition mbind {A B} (m : M A) (k : A -> M B) : M B :=
  fun w =>
    match m w with
    | (Ok a, w1) => k a w1
    | (Err e, w1) => (Err e, w1)
    end.

Declare Scope py_scope.
Delimit Scope py_scope with py.

Notation "x <- m ;; k" := (mbind m (fun x => k))
  (at level 100, m at next level, right associativity) : py_scope.
Notation "m ;; k" := (mbind m (fun _ => k))
  (at level 100, right associativity) : py_scope.

Local Open Scope py_scope.

Definition read_fs {A} (f : FileSystem -> Result A) : M A :=
  fun w => (f (w_fs w), w).

Definition py_assert (cond : bool) (msg : string) : M unit :=
  if cond then ret tt else raise (AssertionError msg).

Definition print (text : string) : M unit :=
  fun w => (Ok tt, log_line (Line text) w).

(** *** Module [time]

    Its clocks, which take no argument and return a number, and its other
    public names; any further name is not an attribute of the module. *)
Definition time_clocks : list string :=
  ["time"; "time_ns"; "monotonic"; "monotonic_ns"; "perf_counter";
   "perf_counter_ns"; "process_time"; "process_time_ns"; "thread_time";
   "thread_time_ns"].

Definition time_other_names : list string :=
  ["altzone"; "asctime"; "ctime"; "daylight"; "get_clock_info"; "gmtime";
   "localtime"; "mktime"; "sleep"; "strftime"; "strptime"; "struct_time";
   "timezone"; "tzname"].

(** [time.<attr>()], the result used as a number.  A name that is not a
    clock is not callable, wants arguments or returns no number: a
    [TypeError], placed here at the call. *)
Definition time_call (attr : string) : M R :=
  fun w =>
    if existsb (String.eqb attr) time_clocks then (Ok (w_clock w), w)
    else if existsb (String.eqb attr) time_other_names
         then (Err (TypeError attr), w)
         else (Err (AttributeError "time" attr), w).

(** *** Files

    Of the ways file operations can fail, those decided by which paths
    exist are modelled; permissions, missing parent directories and the like
    are not. *)

Definition path_exists (path : string) (fs : FileSystem) : bool :=
  existsb (String.eqb path) (fs_dirs fs)
  || existsb (fun f => String.eqb path (fst f)) (fs_files fs).

Definition os_path_exists (path : string) : M bool :=
  fun w => (Ok (path_exists path (w_fs w)), w).

Definition os_mkdir (path : string) : M unit :=
  fun w =>
    if path_exists path (w_fs w) then (Err (FileExistsError path), w)
    else (Ok tt,
          log_event (Mkdir path)
            (set_fs (mkFS (path :: fs_dirs (w_fs w)) (fs_files (w_fs w))) w)).

Definition fs_put (path content : string) (fs : FileSystem) : FileSystem :=
  mkFS (fs_dirs fs)
       ((path, content)
          :: filter (fun f => negb (String.eqb path (fst f))) (fs_files fs)).

Definition file_content (path : string) (fs : FileSystem) : option string :=
  option_map snd (find (fun f => String.eqb path (fst f)) (fs_files fs)).

Definition newline : ascii := "010"%char.
Definition tab : ascii := "009"%char.
Definition slash : ascii := "/"%char.

(** [fh.readlines()]: lines keep their terminating newline. *)
Fixpoint readlines (s : string) : list string :=
  match s with
  | EmptyString => []
  | String c rest =>
      if Ascii.eqb c newline then String c EmptyString :: readlines rest
      else match readlines rest with
           | [] => [String c EmptyString]
           | l :: ls => String c l :: ls
           end
  end.

(** [line.replace("\n", "")] *)
Fixpoint remove_newlines (s : string) : string :=
  match s with
  | EmptyString => EmptyString
  | String c rest =>
      if Ascii.eqb c newline then remove_newlines rest
      else String c (remove_newlines rest)
  end.

(** [s.split(sep)] for a one-character separator. *)
Fixpoint split_on (sep : ascii) (s : string) : list string :=
  match s with
  | EmptyString => [EmptyString]
  | String c rest =>
      if Ascii.eqb c sep then EmptyString :: split_on sep rest
      else match split_on sep rest with
           | [] => [String c EmptyString]
           | f :: fs => String c f :: fs
           end
  end.

Definition parse_pair (line : string) : Pair :=
  split_on tab (remove_newlines line).

(** [open(path, "r")] followed by [readlines]; the stored text is the
    decoded content with newlines already translated. *)
Definition open_readlines (path : string) : M (list string) :=
  fun w =>
    match file_content path (w_fs w) with
    | Some text => (Ok (readlines text), w)
    | None =>
        if existsb (String.eqb path) (fs_dirs (w_fs w))
        then (Err (IsADirectoryError path), w)
        else (Err (FileNotFoundError path), w)
    end.

Fixpoint contains_char (c : ascii) (s : string) : bool :=
  match s with
  | EmptyString => false
  | String d rest => Ascii.eqb c d || contains_char c rest
  end.

(** [s.rsplit(sep, 1)]: split once, at the last separator. *)
Fixpoint rsplit1 (sep : ascii) (s : string) : list string :=
  match s with
  | EmptyString => [EmptyString]
  | String c rest =>
      if contains_char sep rest then
        match rsplit1 sep rest with
        | [before; after] => [String c before; after]
        | other => other
        end
      else if Ascii.eqb c sep then [EmptyString; rest]
      else [s]
  end.

(** Indexing of a Python tuple or list of strings by a non-negative
    constant. *)
Definition py_index (l : list string) (i : nat) : Result string :=
  match nth_error l i with
  | Some s => Ok s
  | None => Err (IndexError "index out of range")
  end.

(** ** The per-pair computation *)

(** [df.loc[:, label]] as a one-dimensional column.  When several columns
    carry the label pandas hands back a two-dimensional selection, which
    [sort_values] refuses and which cannot become the data of a [Series]:
    the iteration raises, reported here as [ValueError]. *)
Definition column_by_label (df : DataFrame) (label : string) : Result (list R) :=
  match columns_named df label with
  | [] => Err (KeyError [label])
  | [c] => Ok (snd c)
  | _ :: _ :: _ => Err (ValueError "label is not unique")
  end.

Fixpoint insert_by_key (p : R * nat) (l : list (R * nat)) : list (R * nat) :=
  match l with
  | [] => [p]
  | q :: t =>
      if Rle_dec (fst p) (fst q) then p :: l else q :: insert_by_key p t
  end.

(** Positions of [keys] in ascending order of key (ties in input order;
    pandas leaves the order of ties open). *)
Definition argsort (keys : list R) : list nat :=
  map snd (fold_right insert_by_key []
                      (combine keys (seq 0 (List.length keys)))).

Definition take {A} (d : A) (l : list A) (positions : list nat) : list A :=
  map (fun i => nth i l d) positions.

(** [df.sort_values(by=label)] *)
Definition sort_values (df : DataFrame) (label : string) : Result DataFrame :=
  rbind (column_by_label df label) (fun keys =>
  let order := argsort keys in
  Ok (mkFrame (take EmptyString (df_index df) order)
              (map (fun c : Column => (fst c, take 0%R (snd c) order))
                   (df_columns df)))).

Definition row_values (df : DataFrame) (i : nat) : list R :=
  map (fun c : Column => nth i (snd c) 0%R) (df_columns df).

Definition max_list (l : list R) : R :=
  match l with
  | [] => 0%R
  | v :: t => fold_left Rmax t v
  end.

(** [np.apply_over_axes(np.max, df, 1)], flattened: one maximum per row. *)
Definition row_max (df : DataFrame) : list R :=
  map (fun i => max_list (row_values df i))
      (seq 0 (List.length (df_index df))).

(** [a - b] on one-dimensional arrays, with numpy's broadcasting of a
    one-element operand. *)
Definition np_sub (a b : list R) : Result (list R) :=
  if Nat.eqb (List.length a) (List.length b)
  then Ok (map (fun p : R * R => (fst p - snd p)%R) (combine a b))
  else match a, b with
       | _, [w] => Ok (map (fun v => (v - w)%R) a)
       | [v], _ => Ok (map (fun w => (v - w)%R) b)
       | _, _ => Err (ValueError "operands could not be broadcast together")
       end.

(** [pd.Series(data=..., index=...)] *)
Definition pd_Series (data : list R) (index : list string) : Result Series :=
  if Nat.eqb (List.length data) (List.length index)
  then Ok (mkSeries index data)
  else Err (ValueError "Length of values does not match length of index").

(** [table.loc[:, label].to_list()] *)
Definition table_column (t : PseaTable) (label : string) : Result (list string) :=
  match filter (fun c => String.eqb (fst c) label) t with
  | [] => Err (KeyError [label])
  | [c] => Ok (snd c)
  | _ :: _ :: _ => Err (AttributeError "DataFrame" "to_list")
  end.

(** [pd.DataFrame(pair_spline_dict)] needs columns of one length. *)
Definition pd_DataFrame_of_dict (d : SplineDict) : Result SplineDict :=
  if Nat.eqb (List.length (sd_x d)) (List.length (sd_y d))
     && Nat.eqb (List.length (sd_y d)) (List.length (sd_pair d))
  then Ok d
  else Err (ValueError "All arrays must be of the same length").

(** Arguments of [make_psea_table] other than the host context, whose two
    methods are collaborators. *)
Record Args : Type := mkArgs {
  scores_file : string;
  pairs_file : string;
  peptide_sets_file : string;
  threshold : R;
  p_val_thresh : R;
  es_thresh : R;
  species_taxa_file : string;
  min_size : Z;
  max_size : Z;
  permutation_num : Z;
  spline_type : string;
  degree : Z;
  dof : option Z;
  table_dir : string;
  pepsirf_binary : string
}.

(** The lists the loop appends to. *)
Record LoopState : Type := mkLoopState {
  titles : list string;
  used_pairs : list Pair;
  pair_spline_dict : SplineDict
}.

Definition initial_state : LoopState :=
  mkLoopState [] [] (mkSplineDict [] [] []).

(** What one iteration computes from the score matrix before it calls the
    enrichment engine. *)
Record PairSeries : Type := mkPairSeries {
  ps_sorted : DataFrame;
  ps_x : list R;
  ps_y : list R;
  ps_yfit : list R;
  ps_maxZ : Series;
  ps_deltaZ : Series
}.

(** [f"{pair[0]}~{pair[1]}"] *)
Definition table_prefix_of (pair : Pair) : Result string :=
  rbind (py_index pair 0) (fun p0 =>
  rbind (py_index pair 1) (fun p1 => Ok (p0 ++ "~" ++ p1)%string)).

(** [if not dof: dof = ro.NULL] *)
Definition resolve_dof (d : option Z) : option Z :=
  match d with
  | Some z => if Z.eqb z 0 then None else Some z
  | None => None
  end.

(** [taxa_access]: ["species_name"], replaced by ["ID"] when
    [species_taxa_file] is empty. *)
Definition resolve_taxa_access (species_taxa_file : string) : string :=
  if String.eqb species_taxa_file "" then "ID" else "species_name".

Notation "x <~ r ;; k" := (rbind r (fun x => k))
  (at level 100, r at next level, right associativity) : py_scope.

(** ** [make_psea_table] *)

Section Builder.

Variable C : Collaborators.

(** [df.to_csv(path, ...)]: the file gets the rendered text. *)
Definition write_file (path : string) (data : Payload) : M unit :=
  fun w =>
    (Ok tt,
     log_event (WriteFile path data)
               (set_fs (fs_put path (to_csv C data) (w_fs w)) w)).

(** [INTERNAL.psea(...)] and the conversion of its result. *)
Definition call_psea (a : Args) (maxZ deltaZ : Series)
           (peptide_sets : PeptideSets) : M PseaTable :=
  fun w =>
    (internal_psea C maxZ deltaZ peptide_sets (species_taxa_file a)
                   (threshold a) (permutation_num a) (min_size a) (max_size a)
                   (w_fs w),
     log_event (CallPsea maxZ deltaZ) w).

(** [result, = action(...)]: the action returns a one-element tuple. *)
Definition call_action (act : Action) (plugin name : string) (kw : Kwargs)
  : M Artifact :=
  fun w =>
    let w1 := log_event (CallAction plugin name kw) w in
    match act kw (w_fs w) with
    | Ok [res] => (Ok res, w1)
    | Ok _ => (Err (ValueError "wrong number of values to unpack"), w1)
    | Err e => (Err e, w1)
    end.

(** The [if]/[elif]/[else] on [spline_type] (lines 90-95). *)
Definition fit_spline (spline_type : string) (x y : list R)
           (degree : Z) (dof : option Z) : Result (list R) :=
  if String.eqb spline_type "py-smooth" then py_smooth_spline C x y
  else if String.eqb spline_type "cubic" then r_cubic_spline C x y degree dof
  else r_smooth_spline C x y.

(** Lines 85-108: the sorted selection, [x], [y], [yfit], [maxZ], [deltaZ]. *)
Definition pair_series (processed_scores : DataFrame) (pair : Pair)
           (p0 p1 spline_type : string) (degree : Z) (dof : option Z)
  : Result PairSeries :=
  selected <~ loc_columns processed_scores pair;;
  data_sorted <~ sort_values selected p0;;
  x <~ column_by_label data_sorted p0;;
  y <~ column_by_label data_sorted p1;;
  yfit <~ fit_spline spline_type x y degree dof;;
  maxZ <~ pd_Series (row_max data_sorted) (df_index data_sorted);;
  diff <~ np_sub y yfit;;
  deltaZ <~ pd_Series diff (df_index data_sorted);;
  Ok (mkPairSeries data_sorted x y yfit maxZ deltaZ).

(** Lines 83-133: one iteration of the loop over the pairs. *)
Definition pair_step (a : Args) (taxa_access : string) (dof : option Z)
           (processed_scores : DataFrame) (peptide_sets : PeptideSets)
           (pair : Pair) (st : LoopState) : M LoopState :=
  p0 <- lift (py_index pair 0);;
  p1 <- lift (py_index pair 1);;
  let table_prefix := (p0 ++ "~" ++ p1)%string in
  print ("Working on pair (" ++ p0 ++ ", " ++ p1 ++ ")...")%string;;
  ps <- lift (pair_series processed_scores pair p0 p1
                          (spline_type a) (degree a) dof);;
  let d := pair_spline_dict st in
  let d := mkSplineDict
             (sd_x d ++ ps_x ps)
             (sd_y d ++ ps_yfit ps)
             (sd_pair d ++ repeat table_prefix (List.length (ps_x ps))) in
  let used := used_pairs st ++ [pair] in
  table <- call_psea a (ps_maxZ ps) (ps_deltaZ ps) peptide_sets;;
  write_file (table_dir a ++ "/" ++ table_prefix ++ "_psea_table.tsv")%string
             (PTable table);;
  taxa <- lift (table_column table taxa_access);;
  ret (mkLoopState (titles st ++ [table_prefix]) used d).

(** Lines 82-133: [for pair in pairs]. *)
Fixpoint pair_loop (a : Args) (taxa_access : string) (dof : option Z)
         (processed_scores : DataFrame) (peptide_sets : PeptideSets)
         (pairs : list Pair) (st : LoopState) : M LoopState :=
  match pairs with
  | [] => ret st
  | pr :: rest =>
      st1 <- pair_step a taxa_access dof processed_scores peptide_sets pr st;;
      pair_loop a taxa_access dof processed_scores peptide_sets rest st1
  end.

(** Lines 67-168: the body of the [with tempfile.TemporaryDirectory()]. *)
Definition tempdir_block (a : Args) (zscatter volcano : Action)
           (pairs : list Pair) (processed_scores : DataFrame)
           (processed_scores_file tempdir : string) : M (Artifact * Artifact) :=
  write_file processed_scores_file (PFrame processed_scores);;
  filtered <- read_fs (remove_peptides C processed_scores (peptide_sets_file a));;
  let processed_scores := fst filtered in
  let peptide_sets := snd filtered in
  let taxa_access := resolve_taxa_access (species_taxa_file a) in
  let dof := resolve_dof (dof a) in
  st <- pair_loop a taxa_access dof processed_scores peptide_sets pairs
                  initial_state;;
  write_file (tempdir ++ "/used_pairs.tsv")%string (PPairs (used_pairs st));;
  spline_frame <- lift (pd_DataFrame_of_dict (pair_spline_dict st));;
  write_file (tempdir ++ "/spline_data.tsv")%string (PSpline spline_frame);;
  processed_scores_art <-
    read_fs (ctx_make_artifact C "FeatureTable[Zscore]" processed_scores_file
                               "PepsirfContingencyTSVFormat");;
  scatter_plot <-
    call_action zscatter "ps-plot" "zscatter"
      (KwZscatter
         (mkZscatterKw processed_scores_art
                       (tempdir ++ "/used_pairs.tsv")%string
                       (tempdir ++ "/spline_data.tsv")%string
                       "p.adjust" "core_enrichment" taxa_access
                       (table_dir a) (p_val_thresh a)));;
  volcano_plot <-
    call_action volcano "ps-plot" "volcano"
      (KwVolcano
         (mkVolcanoKw (table_dir a) ["NES"; "p.adjust"] taxa_access
                      (es_thresh a) (p_val_thresh a)
                      ["Enrichment score"; "Adjusted p-values"]
                      (titles st)));;
  ret (scatter_plot, volcano_plot).

Definition under (dir path : string) : bool :=
  String.prefix (dir ++ "/")%string path.

Definition rmtree (dir : string) (fs : FileSystem) : FileSystem :=
  mkFS (filter (fun d => negb (String.eqb d dir || under dir d)) (fs_dirs fs))
       (filter (fun f => negb (under dir (fst f))) (fs_files fs)).

(** [with tempfile.TemporaryDirectory() as tempdir]: a fresh directory,
    removed with its content however the body ends. *)
Definition with_tempdir {A} (body : string -> M A) : M A :=
  fun w =>
    let tempdir := mkdtemp C (w_fs w) in
    let w0 := log_event (Mkdir tempdir)
                (set_fs (mkFS (tempdir :: fs_dirs (w_fs w))
                              (fs_files (w_fs w))) w) in
    let (r, w1) := body tempdir w0 in
    (r, set_fs (rmtree tempdir (w_fs w1)) w1).

(** Lines 45-48: the two assertions, as run by an interpreter that does
    not strip [assert] statements. *)
Definition validate (a : Args) : M unit :=
  py_assert (existsb (String.eqb (spline_type a)) (SPLINE_TYPES C))
            ("'" ++ spline_type a ++ "' is not a valid spline method!")%string;;
  present <- os_path_exists (table_dir a);;
  py_assert (negb present)
            ("'" ++ table_dir a
                 ++ "' already exists! Please move or remove this directory.")%string.

(** Lines 60-64. *)
Definition transformed_name (scores_file : string) : Result string :=
  let scores_file_split := rsplit1 slash scores_file in
  if Nat.ltb 1 (List.length scores_file_split)
  then s <~ py_index scores_file_split 1;; Ok ("transformed_" ++ s)%string
  else s <~ py_index scores_file_split 0;; Ok ("transformed_" ++ s)%string.

(** Lines 42-168: everything between the two timer calls. *)
Definition make_psea_table_body (a : Args) : M (Artifact * Artifact) :=
  volcano <- lift (ctx_get_action C "ps-plot" "volcano");;
  zscatter <- lift (ctx_get_action C "ps-plot" "zscatter");;
  validate a;;
  os_mkdir (table_dir a);;
  lines <- open_readlines (pairs_file a);;
  let pairs := map parse_pair lines in
  scores <- read_fs (read_csv C (scores_file a));;
  processed_scores <- lift (process_scores scores pairs);;
  processed_scores_file <- lift (transformed_name (scores_file a));;
  with_tempdir (tempdir_block a zscatter volcano pairs processed_scores
                              processed_scores_file).

Definition make_psea_table (a : Args) : M (Artifact * Artifact) :=
  start_time <- time_call "perf_couter";;
  plots <- make_psea_table_body a;;
  end_time <- time_call "perf_couter";;
  (fun w => (Ok tt, log_line (Finished (end_time - start_time)%R) w));;
  ret plots.

End Builder.

(** ** Notions used to state the properties *)

(** The label an iteration gives its rows and its result table. *)
Definition label_of (pair : Pair) : string :=
  (nth 0 pair "" ++ "~" ++ nth 1 pair "")%string.

(** The spline collaborators, given as many [y] as [x], return one fitted
    value per [x]. *)
Definition splines_aligned (C : Collaborators) : Prop :=
  forall spline_type x y degree dof yfit,
    List.length y = List.length x ->
    fit_spline C spline_type x y degree dof = Ok yfit ->
    List.length yfit = List.length x.

(** The actions called, with their keyword arguments, in call order. *)
Definition action_calls (tr : list Event) : list (string * Kwargs) :=
  flat_map (fun e => match e with
                     | CallAction _ name kw => [(name, kw)]
                     | _ => []
                     end) tr.

(** The events of the per-pair loop: calls of the enrichment engine and
    writes of its result tables. *)
Definition loop_event (e : Event) : Prop :=
  match e with
  | CallPsea _ _ => True
  | WriteFile _ (PTable _) => True
  | _ => False
  end.

(** Exactly one of the pairs carries the label. *)
Definition labels_one_pair (pairs : list Pair) (label : string) : Prop :=
  exists p, In p pairs /\ label_of p = label
            /\ forall q, In q pairs -> label_of q = label -> q = p.

(** Whatever way a run of [m] ends, the actions it called were all given
    [taxa_access = t]. *)
Definition calls_with_taxa (t : string) {A} (m : M A) : Prop :=
  forall w r w',
    m w = (r, w') ->
    exists calls,
      action_calls (w_trace w') = action_calls (w_trace w) ++ calls
      /\ Forall (fun c : string * Kwargs => kw_taxa_access (snd c) = t) calls.

(** [f"{table_dir}/{table_prefix}_psea_table.tsv"] *)
Definition table_path (a : Args) (pair : Pair) : string :=
  (table_dir a ++ "/" ++ label_of pair ++ "_psea_table.tsv")%string.

(** [f"Working on pair ({pair[0]}, {pair[1]})..."], as printed. *)
Definition progress_line (pair : Pair) : OutLine :=
  Line ("Working on pair (" ++ nth 0 pair "" ++ ", " ++ nth 1 pair ""
                            ++ ")...")%string.

(** Paths of the result tables written, in writing order. *)
Definition table_writes (tr : list Event) : list string :=
  flat_map (fun e => match e with
                     | WriteFile path (PTable _) => [path]
                     | _ => []
                     end) tr.

(** The series handed to the enrichment engine, in call order. *)
Definition psea_calls (tr : list Event) : list (Series * Series) :=
  flat_map (fun e => match e with
                     | CallPsea maxZ deltaZ => [(maxZ, deltaZ)]
                     | _ => []
                     end) tr.

(** The world once [table_dir] has been created. *)
Definition after_mkdir (path : string) (w : World) : World :=
  log_event (Mkdir path)
            (set_fs (mkFS (path :: fs_dirs (w_fs w)) (fs_files (w_fs w))) w).

(** ** Example inputs *)

Module Example.

Definition scores : DataFrame :=
  mkFrame ["pep_1"; "pep_2"; "pep_3"]
          [("A", [(-10)%R; 0%R; 120%R]);
           ("B", [1%R; (-8)%R; 8%R]);
           ("C", [2%R; 3%R; 4%R])].

Definition pairs : list Pair := [["A"; "B"]; ["B"; "A"]].

Definition pairs_missing : list Pair := [["A"; "Z"]].

(** Names that end in a NUL character, beside the same names without it. *)
Definition A_nul : string := String "A" (String nul EmptyString).

Definition Z_nul : string := String "Z" (String nul EmptyString).

Definition scores_nul : DataFrame :=
  mkFrame ["pep_1"] [(A_nul, [1%R]); ("B", [2%R])].

Definition pairs_nul : list Pair := [[A_nul; "B"]].

Definition scores_twin : DataFrame :=
  mkFrame ["pep_1"] [("A", [1%R]); (A_nul, [2%R])].

Definition pairs_twin : list Pair := [[A_nul; "A"]].

Definition scores_Z : DataFrame := mkFrame ["pep_1"] [("Z", [1%R])].

Definition pairs_Z_nul : list Pair := [[Z_nul; "Z"]].

(** A filtered, rescaled matrix with one feature row. *)
Definition one_row : DataFrame :=
  mkFrame ["pep_1"]
          [("A", [1%R]); ("B", [2%R]); ("A~B", [3%R]); ("B~C", [4%R]);
           ("C", [5%R])].

Definition psea_columns : PseaTable :=
  [("ID", []); ("species_name", []); ("NES", []); ("p.adjust", []);
   ("core_enrichment", [])].

(** Collaborators that do the least their contracts allow: the fitted curve
    passes through the points, no peptide is removed, the enrichment table
    has its columns and no row, an action returns one artifact named after
    it, and files render to the empty text. *)
Definition collaborators : Collaborators :=
  mkCollaborators
    ["r-smooth"; "py-smooth"; "cubic"]
    (fun x y => Ok y)
    (fun x y _ _ => Ok y)
    (fun x y => Ok y)
    (fun df _ _ => Ok (df, []))
    (fun _ _ _ _ _ _ _ _ _ => Ok psea_columns)
    (fun _ name => Ok (fun _ _ => Ok [name]))
    (fun _ view _ _ => Ok view)
    (fun _ _ => Ok (mkFrame ["pep_1"] [("A", [1%R]); ("B", [2%R])]))
    (fun _ => "")
    (fun _ => "/tmp/tmp_psea").

(** The same, with a smoothing spline whose fitted curve is the diagonal:
    the fitted value at [x] is [x]. *)
Definition collaborators_diagonal : Collaborators :=
  mkCollaborators
    (SPLINE_TYPES collaborators)
    (py_smooth_spline collaborators)
    (r_cubic_spline collaborators)
    (fun x y => Ok x)
    (remove_peptides collaborators)
    (internal_psea collaborators)
    (ctx_get_action collaborators)
    (ctx_make_artifact collaborators)
    (read_csv collaborators)
    (to_csv collaborators)
    (mkdtemp collaborators).

Definition args : Args :=
  mkArgs "data/scores.tsv" "pairs.tsv" "peptide_sets.gmt" 0%R
         (5 / 100)%R (4 / 10)%R "" 15 2000 10000 "r-smooth" 3 None
         "./psea_table_outdir" "pepsirf".

Definition args_linear : Args :=
  mkArgs "data/scores.tsv" "pairs.tsv" "peptide_sets.gmt" 0%R
         (5 / 100)%R (4 / 10)%R "" 15 2000 10000 "linear" 3 None
         "./psea_table_outdir" "pepsirf".

Definition args_taxa : Args :=
  mkArgs "data/scores.tsv" "pairs.tsv" "peptide_sets.gmt" 0%R
         (5 / 100)%R (4 / 10)%R "taxa.tsv" 15 2000 10000 "r-smooth" 3 None
         "./psea_table_outdir" "pepsirf".

(** A pairs file of one line, and nothing at the output path. *)
Definition world : World :=
  mkWorld (mkFS ["data"]
                [("pairs.tsv", String "A" (String tab (String "B"
                                  (String newline EmptyString))));
                 ("data/scores.tsv", ""); ("peptide_sets.gmt", "")])
          [] [] 0%R.

(** The same with the line of the pairs file repeated. *)
Definition world_duplicated : World :=
  mkWorld (mkFS ["data"]
                [("pairs.tsv",
                  String "A" (String tab (String "B" (String newline
                  (String "A" (String tab (String "B" (String newline
                   EmptyString))))))));
                 ("data/scores.tsv", ""); ("peptide_sets.gmt", "")])
          [] [] 0%R.

(** The same with the output directory already there. *)
Definition world_with_outdir : World :=
  mkWorld (mkFS ["./psea_table_outdir"; "data"] [("pairs.tsv", "")])
          [] [] 0%R.

Definition two_pairs : list Pair := [["A"; "B"]; ["C"; "A"]].

Definition colliding_pairs : list Pair := [["A~B"; "C"]; ["A"; "B~C"]].

(** No pairs file, and nothing at the output path. *)
Definition world_without_pairs : World :=
  mkWorld (mkFS ["data"] [("data/scores.tsv", ""); ("peptide_sets.gmt", "")])
          [] [] 0%R.

(** A pairs file whose second line has no tab. *)
Definition world_short_line : World :=
  mkWorld (mkFS ["data"]
                [("pairs.tsv",
                  String "A" (String tab (String "B" (String newline
                  (String "A" (String newline EmptyString))))));
                 ("data/scores.tsv", ""); ("peptide_sets.gmt", "")])
          [] [] 0%R.

(** A filtered matrix of three features, not in baseline order. *)
Definition three_rows : DataFrame :=
  mkFrame ["pep_1"; "pep_2"; "pep_3"]
          [("A", [2%R; 1%R; 3%R]); ("B", [10%R; 20%R; 30%R])].

End Example.

(** * Properties *)

(** ** Order on strings *)

Definition str_lt (a b : string) : Prop := String.compare a b = Lt.
Definition str_le (a b : string) : Prop := String.leb a b = true.

Lemma str_lt_trans a b c : str_lt a b -> str_lt b c -> str_lt a c.
Proof.
  unfold str_lt. intros Hab Hbc.
  apply String_as_OT.cmp_lt. apply String_as_OT.lt_trans with b;
    now apply String_as_OT.cmp_lt.
Qed.

Lemma str_lt_irrefl a : ~ str_lt a a.
Proof.
  unfold str_lt. intro H.
  assert (E : String.compare a a = Eq) by now apply String_as_OT.cmp_eq.
  congruence.
Qed.

Lemma str_le_cases a b : str_le a b <-> str_lt a b \/ a = b.
Proof.
  unfold str_le, str_lt, String.leb.
  destruct (String.compare a b) eqn:E; split; intro H; try discriminate; auto.
  - right. now apply String_as_OT.cmp_eq.
  - destruct H as [H | H]; [discriminate |].
    subst. assert (E' : String.compare b b = Eq) by now apply String_as_OT.cmp_eq.
    congruence.
Qed.

Lemma str_le_false a b : String.leb a b = false -> str_lt b a.
Proof.
  unfold str_lt, String.leb. rewrite (String.compare_antisym b a).
  destruct (String.compare a b); simpl; intro H; congruence.
Qed.

Lemma str_le_trans a b c : str_le a b -> str_le b c -> str_le a c.
Proof.
  rewrite !str_le_cases. intros [H1 | ->] [H2 | ->]; auto.
  left. eapply str_lt_trans; eauto.
Qed.

Lemma str_lt_le_trans a b c : str_lt a b -> str_le b c -> str_lt a c.
Proof.
  rewrite str_le_cases. intros H1 [H2 | ->]; auto.
  eapply str_lt_trans; eauto.
Qed.

(** ** [np_unique] returns the sorted set of the names it is given, each
       without the NUL characters at its end *)

Lemma insert_sorted_In s l x : In x (insert_sorted s l) <-> x = s \/ In x l.
Proof.
  induction l as [| h t IH]; simpl.
  - intuition.
  - destruct (String.leb s h); simpl; rewrite ?IH; intuition.
Qed.

Lemma sort_strings_In l x : In x (sort_strings l) <-> In x l.
Proof.
  induction l as [| h t IH]; simpl; [tauto |].
  rewrite insert_sorted_In, IH. intuition.
Qed.

Lemma insert_sorted_sorted s l :
  StronglySorted str_le l -> StronglySorted str_le (insert_sorted s l).
Proof.
  induction 1 as [| h t Hs IH Hall]; simpl.
  - repeat constructor.
  - destruct (String.leb s h) eqn:E.
    + constructor; [now constructor |].
      constructor; [exact E |].
      eapply Forall_impl; [| exact Hall].
      intros x Hx. eapply str_le_trans; eauto.
    + constructor; [exact IH |].
      apply Forall_forall. intros x Hx.
      apply insert_sorted_In in Hx. destruct Hx as [-> | Hx].
      * apply str_le_cases. left. now apply str_le_false.
      * rewrite Forall_forall in Hall. auto.
Qed.

Lemma sort_strings_sorted l : StronglySorted str_le (sort_strings l).
Proof.
  induction l; simpl; [constructor | now apply insert_sorted_sorted].
Qed.

Lemma drop_adjacent_equal_In l x : In x (drop_adjacent_equal l) <-> In x l.
Proof.
  induction l as [| a t IH]; [simpl; tauto |].
  destruct t as [| b t']; [simpl; tauto |].
  change (drop_adjacent_equal (a :: b :: t'))
    with (if String.eqb a b then drop_adjacent_equal (b :: t')
          else a :: drop_adjacent_equal (b :: t')).
  destruct (String.eqb_spec a b) as [-> | Hne].
  - rewrite IH. simpl. tauto.
  - simpl In at 1. rewrite IH. simpl. tauto.
Qed.

Lemma drop_adjacent_equal_sorted l :
  StronglySorted str_le l -> StronglySorted str_lt (drop_adjacent_equal l).
Proof.
  induction 1 as [| a t Hs IH Hall]; [constructor |].
  destruct t as [| b t']; [repeat constructor |].
  change (drop_adjacent_equal (a :: b :: t'))
    with (if String.eqb a b then drop_adjacent_equal (b :: t')
          else a :: drop_adjacent_equal (b :: t')).
  destruct (String.eqb_spec a b) as [-> | Hne]; [exact IH |].
  constructor; [exact IH |].
  apply Forall_forall. intros x Hx. rewrite drop_adjacent_equal_In in Hx.
  assert (Hab : str_lt a b).
  { inversion Hall as [| ? ? Hle _]; subst.
    apply str_le_cases in Hle. destruct Hle; [assumption | contradiction]. }
  simpl in Hx. destruct Hx as [<- | Hx]; [exact Hab |].
  inversion Hs as [| ? ? _ Hb]; subst.
  rewrite Forall_forall in Hb. eapply str_lt_le_trans; eauto.
Qed.

Lemma np_unique_In l x :
  In x (np_unique l) <-> exists name, In name l /\ x = rstrip_nul name.
Proof.
  unfold np_unique.
  rewrite drop_adjacent_equal_In, sort_strings_In, in_map_iff.
  split; intros [name [H1 H2]]; exists name; auto.
Qed.

Lemma no_trailing_nul_names l :
  (forall name, In name l -> no_trailing_nul name) -> map rstrip_nul l = l.
Proof.
  induction l as [| a t IH]; simpl; intro H; [reflexivity |].
  rewrite (H a) by now left. f_equal. apply IH. auto.
Qed.

Lemma np_unique_In_plain l x :
  (forall name, In name l -> no_trailing_nul name) ->
  In x (np_unique l) <-> In x l.
Proof.
  intro H. unfold np_unique.
  now rewrite drop_adjacent_equal_In, sort_strings_In, no_trailing_nul_names.
Qed.

Lemma np_unique_sorted l : StronglySorted str_lt (np_unique l).
Proof.
  apply drop_adjacent_equal_sorted, sort_strings_sorted.
Qed.

Lemma strictly_sorted_NoDup l : StronglySorted str_lt l -> NoDup l.
Proof.
  induction 1 as [| a t Hs IH Hall]; constructor; auto.
  intro Hin. rewrite Forall_forall in Hall.
  exact (str_lt_irrefl a (Hall a Hin)).
Qed.

Lemma strictly_sorted_unique l1 :
  forall l2, StronglySorted str_lt l1 -> StronglySorted str_lt l2 ->
             (forall x, In x l1 <-> In x l2) -> l1 = l2.
Proof.
  induction l1 as [| a t1 IH]; intros [| b t2] H1 H2 Hiff.
  - reflexivity.
  - exfalso. apply (proj2 (Hiff b)). now left.
  - exfalso. apply (proj1 (Hiff a)). now left.
  - inversion H1 as [| ? ? Hs1 Ha]; subst.
    inversion H2 as [| ? ? Hs2 Hb]; subst.
    rewrite Forall_forall in Ha, Hb.
    assert (a = b) as ->.
    { destruct (proj1 (Hiff a) (or_introl eq_refl)) as [E | Hin]; [auto |].
      destruct (proj2 (Hiff b) (or_introl eq_refl)) as [E | Hin']; [auto |].
      exfalso. apply (str_lt_irrefl a).
      eapply str_lt_trans; [apply Ha, Hin' | apply Hb, Hin]. }
    f_equal. apply IH; auto.
    intro x. split; intro Hx.
    + destruct (proj1 (Hiff x) (or_intror Hx)) as [E | Hin]; [| exact Hin].
      subst. exfalso. exact (str_lt_irrefl x (Ha x Hx)).
    + destruct (proj2 (Hiff x) (or_intror Hx)) as [E | Hin]; [| exact Hin].
      subst. exfalso. exact (str_lt_irrefl x (Hb x Hx)).
Qed.

Lemma np_unique_same_names l1 l2 :
  (forall x, In x (map rstrip_nul l1) <-> In x (map rstrip_nul l2)) ->
  np_unique l1 = np_unique l2.
Proof.
  intro H. apply strictly_sorted_unique; try apply np_unique_sorted.
  intro x. unfold np_unique.
  rewrite !drop_adjacent_equal_In, !sort_strings_In. apply H.
Qed.

(** ** The arithmetic of the transform *)

Lemma power_value : power = 8%R.
Proof.
  unfold power, py_pow, base, offset.
  replace 3%R with (INR 3) by (simpl; lra).
  rewrite Rpower_pow by lra. lra.
Qed.

Lemma clamp_Rmax v : clamp v = Rmax 1 v.
Proof.
  unfold clamp, Rmax.
  destruct (Rlt_dec v 1), (Rle_dec 1 v); lra.
Qed.

Lemma clamp_ge_1 v : (1 <= clamp v)%R.
Proof. unfold clamp. destruct (Rlt_dec v 1); lra. Qed.

Lemma ln_2_pos : (0 < ln 2)%R.
Proof. rewrite <- ln_1. apply ln_increasing; lra. Qed.

Lemma py_log_base_2 v : (0 < v)%R -> py_log v base = Ok (log2 v).
Proof.
  intro Hv. unfold py_log, base, log2.
  destruct (Rle_dec v 0); [lra |].
  destruct (Rle_dec 2 0); [lra |].
  destruct (Req_dec_T 2 1); [lra | reflexivity].
Qed.

Lemma log2_nonneg v : (1 <= v)%R -> (0 <= log2 v)%R.
Proof.
  intro Hv. unfold log2, Rdiv.
  apply Rmult_le_pos.
  - rewrite <- ln_1. destruct Hv as [Hv | <-]; [| lra].
    left. apply ln_increasing; lra.
  - left. apply Rinv_0_lt_compat, ln_2_pos.
Qed.

Lemma log_step v :
  rbind (py_log (clamp (power + v)) base) (fun l => Ok (l - offset)%R)
  = Ok (spec_transform v).
Proof.
  rewrite py_log_base_2 by (pose proof (clamp_ge_1 (power + v)); lra).
  simpl. unfold spec_transform, offset.
  now rewrite clamp_Rmax, power_value, (Rplus_comm 8 v).
Qed.

Lemma spec_transform_clamped v : (v + 8 < 1)%R -> spec_transform v = (-3)%R.
Proof.
  intro Hv. unfold spec_transform, log2.
  rewrite Rmax_left by lra. rewrite ln_1. lra.
Qed.

Lemma spec_transform_unclamped v :
  (1 <= v + 8)%R -> spec_transform v = (log2 (v + 8) - 3)%R.
Proof. intro Hv. unfold spec_transform. now rewrite Rmax_right. Qed.

Lemma spec_transform_lower_bound v : (-3 <= spec_transform v)%R.
Proof.
  unfold spec_transform.
  pose proof (log2_nonneg (Rmax 1 (v + 8)) (Rmax_l _ _)). lra.
Qed.

(** ** Column-wise application *)

Lemma map_result_map {A B D} (f : B -> Result D) (h : A -> B) (g : A -> D) l :
  (forall a, f (h a) = Ok (g a)) -> map_result f (map h l) = Ok (map g l).
Proof.
  intro H. induction l as [| a t IH]; simpl; [reflexivity |].
  now rewrite H, IH.
Qed.

Lemma apply_values_result_after f h g df :
  (forall v, f (h v) = Ok (g v)) ->
  apply_values_result f (apply_values h df) = Ok (apply_values g df).
Proof.
  intro H. unfold apply_values_result, apply_values. simpl.
  rewrite (map_result_map _ _ (fun c : Column => (fst c, map g (snd c)))).
  - reflexivity.
  - intros [l vs]. simpl. now rewrite (map_result_map f h g).
Qed.

Lemma apply_values_compose f g df :
  apply_values f (apply_values g df) = apply_values (fun v => f (g v)) df.
Proof.
  unfold apply_values. simpl. f_equal.
  rewrite map_map. apply map_ext. intros [l vs]. simpl. now rewrite map_map.
Qed.

Lemma frame_labels_apply_values f df :
  frame_labels (apply_values f df) = frame_labels df.
Proof.
  unfold frame_labels, apply_values. simpl. rewrite map_map. reflexivity.
Qed.

Lemma cell_apply_values f df j i :
  cell (apply_values f df) j i = option_map f (cell df j i).
Proof.
  unfold cell, apply_values. simpl. rewrite nth_error_map.
  destruct (nth_error (df_columns df) j) as [[l vs] |]; simpl; [| reflexivity].
  now rewrite nth_error_map.
Qed.

(** [process_scores] is the column selection followed by the transform. *)
Lemma process_scores_eq scores pairs :
  process_scores scores pairs
  = rbind (loc_columns scores (np_unique (List.concat pairs)))
          (fun r => Ok (apply_values spec_transform r)).
Proof.
  unfold process_scores.
  destruct (loc_columns scores (np_unique (List.concat pairs))) as [r | e];
    simpl; [| reflexivity].
  rewrite apply_values_compose.
  apply apply_values_result_after. intro v. apply log_step.
Qed.

(** ** Column selection *)

Lemma has_label_In df l : has_label df l = true <-> In l (frame_labels df).
Proof.
  unfold has_label. rewrite existsb_exists. split.
  - intros [x [Hin Heq]]. apply String.eqb_eq in Heq. now subst.
  - intro Hin. exists l. split; [assumption | apply String.eqb_refl].
Qed.

Lemma missing_labels_In df labels l :
  In l (missing_labels df labels) <-> In l labels /\ ~ In l (frame_labels df).
Proof.
  unfold missing_labels. rewrite filter_In, negb_true_iff.
  rewrite <- has_label_In. destruct (has_label df l); intuition congruence.
Qed.

Lemma loc_columns_ok df labels :
  (forall l, In l labels -> In l (frame_labels df)) ->
  loc_columns df labels
  = Ok (mkFrame (df_index df) (flat_map (columns_named df) labels)).
Proof.
  intro H. unfold loc_columns.
  destruct (missing_labels df labels) as [| m ms] eqn:E; [reflexivity |].
  assert (Hm : In m (missing_labels df labels)) by (rewrite E; now left).
  apply missing_labels_In in Hm. destruct Hm as [Hin Hno].
  contradiction (Hno (H m Hin)).
Qed.

Lemma loc_columns_err df labels l :
  In l labels -> ~ In l (frame_labels df) ->
  loc_columns df labels = Err (KeyError (missing_labels df labels)).
Proof.
  intros Hin Hno. unfold loc_columns.
  destruct (missing_labels df labels) as [| m ms] eqn:E; [| reflexivity].
  assert (Hm : In l (missing_labels df labels))
    by (apply missing_labels_In; auto).
  rewrite E in Hm. contradiction.
Qed.

Lemma loc_columns_inv df labels r :
  loc_columns df labels = Ok r ->
  (forall l, In l labels -> In l (frame_labels df))
  /\ r = mkFrame (df_index df) (flat_map (columns_named df) labels).
Proof.
  unfold loc_columns.
  destruct (missing_labels df labels) as [| m ms] eqn:E; [| discriminate].
  intro H. injection H as <-. split; [| reflexivity].
  intros l Hin.
  destruct (has_label df l) eqn:Hl; [now apply has_label_In |].
  assert (Hm : In l (missing_labels df labels)).
  { apply missing_labels_In. split; [assumption |].
    rewrite <- has_label_In. congruence. }
  rewrite E in Hm. contradiction.
Qed.

Lemma columns_named_In df l c :
  In c (columns_named df l) <-> In c (df_columns df) /\ fst c = l.
Proof.
  unfold columns_named. rewrite filter_In, String.eqb_eq. reflexivity.
Qed.

Lemma selection_labels_In df labels :
  (forall l, In l labels -> In l (frame_labels df)) ->
  forall c, In c (map fst (flat_map (columns_named df) labels)) <-> In c labels.
Proof.
  intros H c. rewrite in_map_iff. split.
  - intros [col [<- Hcol]]. apply in_flat_map in Hcol.
    destruct Hcol as [l [Hl Hin]]. apply columns_named_In in Hin.
    destruct Hin as [_ ->]. exact Hl.
  - intro Hc. specialize (H c Hc). unfold frame_labels in H.
    apply in_map_iff in H. destruct H as [col [Hfst Hcol]].
    exists col. split; [assumption |].
    apply in_flat_map. exists c. split; [assumption |].
    apply columns_named_In. auto.
Qed.

Lemma columns_named_absent (cols : list Column) l :
  ~ In l (map fst cols) ->
  filter (fun c : Column => String.eqb (fst c) l) cols = [].
Proof.
  induction cols as [| c t IH]; simpl; intro H; [reflexivity |].
  destruct (String.eqb_spec (fst c) l) as [E | _]; [tauto |].
  apply IH. tauto.
Qed.

Lemma columns_named_unique (cols : list Column) l :
  NoDup (map fst cols) -> In l (map fst cols) ->
  map fst (filter (fun c : Column => String.eqb (fst c) l) cols) = [l].
Proof.
  induction cols as [| c t IH]; simpl; intros Hnd Hin; [contradiction |].
  inversion Hnd as [| ? ? Hno Hnd']; subst.
  destruct (String.eqb_spec (fst c) l) as [E | Hne].
  - subst. simpl. now rewrite columns_named_absent.
  - apply IH; [assumption | tauto].
Qed.

Lemma selection_labels_unique df labels :
  NoDup (frame_labels df) ->
  (forall l, In l labels -> In l (frame_labels df)) ->
  map fst (flat_map (columns_named df) labels) = labels.
Proof.
  intros Hnd. induction labels as [| l t IH]; intro H; simpl; [reflexivity |].
  rewrite map_app. unfold columns_named at 1.
  rewrite columns_named_unique by (auto; apply H; now left).
  simpl. f_equal. apply IH. intros; apply H; now right.
Qed.

Lemma in_concat_pairs (pairs : list Pair) rep :
  In rep (List.concat pairs) <-> exists pair, In pair pairs /\ In rep pair.
Proof.
  rewrite in_concat. split; intros [p Hp]; exists p; tauto.
Qed.

(** ** The columns of a selection, label by label *)

Lemma columns_named_apply_values f df l :
  columns_named (apply_values f df) l
  = map (fun c : Column => (fst c, map f (snd c))) (columns_named df l).
Proof.
  unfold columns_named, apply_values. simpl.
  induction (df_columns df) as [| c t IH]; simpl; [reflexivity |].
  destruct (String.eqb (fst c) l); simpl; now rewrite IH.
Qed.

Lemma columns_named_twice (cols : list Column) l l' :
  filter (fun c : Column => String.eqb (fst c) l')
         (filter (fun c : Column => String.eqb (fst c) l) cols)
  = if String.eqb l l'
    then filter (fun c : Column => String.eqb (fst c) l) cols
    else [].
Proof.
  induction cols as [| c t IH]; simpl; [now destruct (String.eqb l l') |].
  destruct (String.eqb_spec (fst c) l) as [E | Hne]; simpl.
  - rewrite IH, E. destruct (String.eqb l l'); reflexivity.
  - exact IH.
Qed.

Lemma columns_named_not_selected df labels l :
  ~ In l labels ->
  filter (fun c : Column => String.eqb (fst c) l)
         (flat_map (columns_named df) labels) = [].
Proof.
  induction labels as [| a t IH]; simpl; intro H; [reflexivity |].
  rewrite filter_app. unfold columns_named at 1.
  rewrite columns_named_twice.
  destruct (String.eqb_spec a l) as [E | _]; [tauto |].
  apply IH. tauto.
Qed.

(** A selection by distinct labels keeps, under each label selected, the
    columns the frame has under it, in the frame's order. *)
Lemma columns_named_selection df labels l :
  NoDup labels -> In l labels ->
  columns_named (mkFrame (df_index df) (flat_map (columns_named df) labels)) l
  = columns_named df l.
Proof.
  unfold columns_named at 1. simpl.
  induction labels as [| a t IH]; simpl; intros Hnd Hin; [contradiction |].
  inversion Hnd as [| ? ? Hno Hnd']; subst.
  rewrite filter_app. unfold columns_named at 1.
  rewrite columns_named_twice.
  destruct (String.eqb_spec a l) as [-> | Hne].
  - rewrite (columns_named_not_selected _ _ _ Hno). apply app_nil_r.
  - simpl. apply IH; [assumption | tauto].
Qed.

Lemma map_flat_map_columns {A} (g : Column -> Column) (h : A -> list Column) l :
  map g (flat_map h l) = flat_map (fun x => map g (h x)) l.
Proof.
  induction l as [| x t IH]; simpl; [reflexivity |].
  now rewrite map_app, IH.
Qed.

Lemma rstrip_nul_list_In (l1 l2 : list string) :
  (forall x, In x l1 <-> In x l2) ->
  forall x, In x (map rstrip_nul l1) <-> In x (map rstrip_nul l2).
Proof.
  intros H x. rewrite !in_map_iff.
  split; intros [y [Hy Hin]]; exists y; split; auto; now apply H.
Qed.

(** ** [process_scores]: what the specification states *)

(** C1.  When every replicate named in the pair list is a column of the score
    matrix and no such name ends in a NUL character, [process_scores]
    returns a matrix with the row index of the input whose columns are the
    input's columns under the referenced names and no others, each cell [v]
    replaced by [log2 (max 1 (v + 8)) - 3]: under every referenced name the
    result has the transformed columns the input has under it, and its
    columns are those, name after name in ascending order of the referenced
    names.  The transform gives [-3] when [v + 8 < 1] and
    [log2 (v + 8) - 3] from there on, however large [v] is. *)
Theorem process_scores_transform (scores : DataFrame) (pairs : list Pair) :
  (forall pair rep, In pair pairs -> In rep pair ->
                    no_trailing_nul rep /\ In rep (frame_labels scores)) ->
  exists m,
    process_scores scores pairs = Ok m
    /\ df_index m = df_index scores
    /\ (forall label col,
          In (label, col) (df_columns m)
          <-> (exists pair, In pair pairs /\ In label pair)
              /\ (exists vs, In (label, vs) (df_columns scores)
                             /\ col = map spec_transform vs))
    /\ (forall pair rep, In pair pairs -> In rep pair ->
          columns_named m rep
          = map (fun c : Column => (fst c, map spec_transform (snd c)))
                (columns_named scores rep))
    /\ (exists names,
          StronglySorted str_lt names
          /\ (forall l, In l names <-> exists pair, In pair pairs /\ In l pair)
          /\ df_columns m
             = flat_map (fun l =>
                           map (fun c : Column =>
                                  (fst c, map spec_transform (snd c)))
                               (columns_named scores l))
                        names)
    /\ (forall v, (v + 8 < 1)%R -> spec_transform v = (-3)%R)
    /\ (forall v, (1 <= v + 8)%R -> spec_transform v = (log2 (v + 8) - 3)%R).
Proof.
  intro Hall.
  assert (Hplain : forall name, In name (List.concat pairs) ->
                                no_trailing_nul name).
  { intros name Hn. apply in_concat_pairs in Hn.
    destruct Hn as [p [Hp Hin]]. now apply (Hall p name). }
  assert (Hnames : forall l, In l (np_unique (List.concat pairs))
                             <-> exists pair, In pair pairs /\ In l pair).
  { intro l. rewrite (np_unique_In_plain _ _ Hplain). apply in_concat_pairs. }
  assert (Hsel : forall l, In l (np_unique (List.concat pairs)) ->
                           In l (frame_labels scores)).
  { intros l Hl. apply Hnames in Hl. destruct Hl as [p [Hp Hin]].
    now apply (Hall p l). }
  exists (apply_values spec_transform
            (mkFrame (df_index scores)
               (flat_map (columns_named scores)
                         (np_unique (List.concat pairs))))).
  split; [rewrite process_scores_eq, loc_columns_ok by exact Hsel; reflexivity |].
  split; [reflexivity |].
  split; [| split; [| split]].
  - intros label col. unfold apply_values. simpl.
    rewrite in_map_iff. split.
    + intros [[l0 vs] [Heq Hin]]. simpl in Heq. injection Heq as -> <-.
      apply in_flat_map in Hin. destruct Hin as [l [Hl Hin]].
      apply columns_named_In in Hin. destruct Hin as [Hin Hfst].
      simpl in Hfst. subst l. split; [now apply Hnames | eauto].
    + intros [Hment [vs [Hin ->]]]. exists (label, vs). split; [reflexivity |].
      apply in_flat_map. exists label. split; [now apply Hnames |].
      apply columns_named_In. auto.
  - intros pair rep Hp Hrep.
    rewrite columns_named_apply_values, columns_named_selection;
      [reflexivity | apply strictly_sorted_NoDup, np_unique_sorted |].
    apply Hnames. eauto.
  - exists (np_unique (List.concat pairs)).
    split; [apply np_unique_sorted |]. split; [exact Hnames |].
    unfold apply_values. simpl. apply map_flat_map_columns.
  - split; [exact spec_transform_clamped | exact spec_transform_unclamped].
Qed.

(** A matrix whose column [A_nul] ends in a NUL character: the pair names
    columns of the matrix only, and [process_scores] raises, looking for a
    column ["A"]. *)
Lemma process_scores_name_ending_in_nul :
  (forall pair rep, In pair Example.pairs_nul -> In rep pair ->
                    In rep (frame_labels Example.scores_nul))
  /\ process_scores Example.scores_nul Example.pairs_nul
     = Err (KeyError ["A"]).
Proof.
  split; [| reflexivity].
  intros pair rep [<- | []] [<- | [<- | []]]; simpl; auto.
Qed.

(** C4.  The column labels of the matrix [process_scores] returns are
    exactly the replicate names mentioned in the pair list, each without
    the NUL characters at its end: the mentioned names themselves when none
    of them ends in NUL.  It returns a matrix whenever all those labels are
    columns of the input, a label occurs once in the result when it occurs
    once in the input, and two pair lists mentioning the same names (in any
    order, any number of times) give the same result. *)
Theorem process_scores_columns (scores : DataFrame) (pairs : list Pair) :
  ((forall pair rep, In pair pairs -> In rep pair ->
                     In (rstrip_nul rep) (frame_labels scores)) ->
   exists m, process_scores scores pairs = Ok m)
  /\ (forall m, process_scores scores pairs = Ok m ->
        (forall c, In c (frame_labels m)
                   <-> exists pair rep, In pair pairs /\ In rep pair
                                        /\ c = rstrip_nul rep)
        /\ ((forall pair rep, In pair pairs -> In rep pair ->
                              no_trailing_nul rep) ->
            forall c, In c (frame_labels m)
                      <-> exists pair, In pair pairs /\ In c pair)
        /\ (NoDup (frame_labels scores) -> NoDup (frame_labels m)))
  /\ (forall pairs',
         (forall c, In c (List.concat pairs) <-> In c (List.concat pairs')) ->
         process_scores scores pairs' = process_scores scores pairs).
Proof.
  assert (Hnames : forall c, In c (np_unique (List.concat pairs))
                             <-> exists pair rep, In pair pairs /\ In rep pair
                                                  /\ c = rstrip_nul rep).
  { intro c. rewrite np_unique_In. split.
    - intros [name [Hn ->]]. apply in_concat_pairs in Hn.
      destruct Hn as [p [Hp Hin]]. eauto.
    - intros [p [rep [Hp [Hin ->]]]]. exists rep. split; [| reflexivity].
      apply in_concat_pairs. eauto. }
  split; [| split].
  - intro Hall. rewrite process_scores_eq, loc_columns_ok.
    + simpl. eauto.
    + intros l Hl. apply Hnames in Hl.
      destruct Hl as [p [rep [Hp [Hin ->]]]]. eauto.
  - intros m Hm. rewrite process_scores_eq in Hm.
    destruct (loc_columns scores (np_unique (List.concat pairs)))
      as [r | e] eqn:Hloc; simpl in Hm; [| discriminate].
    injection Hm as <-. apply loc_columns_inv in Hloc.
    destruct Hloc as [Hall ->]. rewrite frame_labels_apply_values.
    unfold frame_labels at 1 2 4. simpl.
    assert (Hlabels : forall c,
               In c (map fst (flat_map (columns_named scores)
                                       (np_unique (List.concat pairs))))
               <-> exists pair rep, In pair pairs /\ In rep pair
                                    /\ c = rstrip_nul rep).
    { intro c. rewrite (selection_labels_In _ _ Hall). apply Hnames. }
    split; [exact Hlabels | split].
    + intros Hplain c. rewrite Hlabels. split.
      * intros [p [rep [Hp [Hin ->]]]]. rewrite (Hplain p rep Hp Hin). eauto.
      * intros [p [Hp Hin]]. exists p, c. rewrite (Hplain p c Hp Hin). auto.
    + intro Hnd. rewrite (selection_labels_unique _ _ Hnd Hall).
      apply strictly_sorted_NoDup, np_unique_sorted.
  - intros pairs' Hsame. rewrite !process_scores_eq.
    rewrite (np_unique_same_names (List.concat pairs') (List.concat pairs));
      [reflexivity |].
    intro x. symmetry. now apply rstrip_nul_list_In.
Qed.

(** A matrix with a column ["A"] and a column [A_nul], and a pair naming
    both: the matrix returned has the column ["A"] only, so the mentioned
    name [A_nul] is not among its columns. *)
Lemma process_scores_drops_name_ending_in_nul :
  In Example.A_nul (List.concat Example.pairs_twin)
  /\ In Example.A_nul (frame_labels Example.scores_twin)
  /\ exists m,
       process_scores Example.scores_twin Example.pairs_twin = Ok m
       /\ frame_labels m = ["A"]
       /\ ~ In Example.A_nul (frame_labels m).
Proof.
  split; [simpl; auto |].
  split; [simpl; auto |].
  eexists. split; [rewrite process_scores_eq; reflexivity |].
  split; [reflexivity |].
  simpl. intros [H | []]. discriminate H.
Qed.

(** C5.  When some pair mentions a replicate whose name, without the NUL
    characters at its end, is not a column of the score matrix (a name not
    ending in NUL: that is not a column), [process_scores] fails with the
    [KeyError] of the column selection, unchanged.  The error lists that
    name, and lists exactly the mentioned names that are not columns. *)
Theorem process_scores_missing_replicate
        (scores : DataFrame) (pairs : list Pair) (pair : Pair) (rep : string) :
  In pair pairs -> In rep pair ->
  ~ In (rstrip_nul rep) (frame_labels scores) ->
  exists missing,
    process_scores scores pairs = Err (KeyError missing)
    /\ loc_columns scores (np_unique (List.concat pairs)) = Err (KeyError missing)
    /\ In (rstrip_nul rep) missing
    /\ (no_trailing_nul rep -> In rep missing)
    /\ (forall l, In l missing
                  <-> (exists pair' rep', In pair' pairs /\ In rep' pair'
                                          /\ l = rstrip_nul rep')
                      /\ ~ In l (frame_labels scores)).
Proof.
  intros Hp Hrep Habs.
  assert (Hnames : forall c, In c (np_unique (List.concat pairs))
                             <-> exists pair' rep', In pair' pairs
                                                    /\ In rep' pair'
                                                    /\ c = rstrip_nul rep').
  { intro c. rewrite np_unique_In. split.
    - intros [name [Hn ->]]. apply in_concat_pairs in Hn.
      destruct Hn as [p [Hp' Hin]]. eauto.
    - intros [p [r [Hp' [Hin ->]]]]. exists r. split; [| reflexivity].
      apply in_concat_pairs. eauto. }
  assert (Hin : In (rstrip_nul rep) (np_unique (List.concat pairs))).
  { apply Hnames. eauto. }
  assert (Hmiss : In (rstrip_nul rep)
                     (missing_labels scores (np_unique (List.concat pairs)))).
  { apply missing_labels_In. auto. }
  exists (missing_labels scores (np_unique (List.concat pairs))).
  split; [rewrite process_scores_eq, (loc_columns_err _ _ _ Hin Habs);
          reflexivity |].
  split; [exact (loc_columns_err _ _ _ Hin Habs) |].
  split; [exact Hmiss |].
  split; [intro Hplain; unfold no_trailing_nul in Hplain;
          now rewrite Hplain in Hmiss |].
  intro l. rewrite missing_labels_In, Hnames. reflexivity.
Qed.

(** A matrix with the one column ["Z"] and a pair naming [Z_nul], which is
    not a column of it: [process_scores] returns, with the column ["Z"]. *)
Lemma process_scores_finds_name_ending_in_nul :
  In Example.Z_nul (List.concat Example.pairs_Z_nul)
  /\ ~ In Example.Z_nul (frame_labels Example.scores_Z)
  /\ exists m,
       process_scores Example.scores_Z Example.pairs_Z_nul = Ok m
       /\ frame_labels m = ["Z"].
Proof.
  split; [simpl; auto |].
  split; [simpl; intros [H | []]; discriminate H |].
  eexists. split; [rewrite process_scores_eq; reflexivity | reflexivity].
Qed.

(** C10.  Whatever the cell [v], the value [process_scores] hands to the
    logarithm is at least 1, so the logarithm returns and its result less
    the offset is at least [-3]; [process_scores] can fail only with the
    [KeyError] of the column selection, and every cell of a matrix it
    returns is at least [-3]. *)
Theorem process_scores_log_defined (scores : DataFrame) (pairs : list Pair) :
  (forall v, (1 <= clamp (power + v))%R)
  /\ (forall v, exists l,
         py_log (clamp (power + v)) base = Ok l /\ (-3 <= l - offset)%R)
  /\ (forall e, process_scores scores pairs = Err e ->
                exists missing, e = KeyError missing)
  /\ (forall m, process_scores scores pairs = Ok m ->
                Forall (fun c : Column => Forall (fun v => (-3 <= v)%R) (snd c))
                       (df_columns m)).
Proof.
  split; [intro v; apply clamp_ge_1 |].
  split.
  { intro v. pose proof (log_step v) as H.
    destruct (py_log (clamp (power + v)) base) as [l | e]; simpl in H;
      [| discriminate].
    exists l. split; [reflexivity |].
    injection H as ->. apply spec_transform_lower_bound. }
  rewrite process_scores_eq. unfold loc_columns.
  destruct (missing_labels scores (np_unique (List.concat pairs)));
    simpl; split.
  - discriminate.
  - intros m H. injection H as <-. simpl.
    apply Forall_forall. intros c Hc. apply in_map_iff in Hc.
    destruct Hc as [c0 [<- _]]. simpl.
    apply Forall_forall. intros v Hv. apply in_map_iff in Hv.
    destruct Hv as [v0 [<- _]]. apply spec_transform_lower_bound.
  - intros e H. injection H as <-. eauto.
  - discriminate.
Qed.

Lemma example_pairs_are_columns :
  forall pair rep, In pair Example.pairs -> In rep pair ->
                   In rep (frame_labels Example.scores).
Proof.
  intros pair rep Hp Hr. simpl in Hp.
  destruct Hp as [<- | [<- | []]]; simpl in Hr;
    destruct Hr as [<- | [<- | []]]; simpl; auto.
Qed.

Lemma example_pairs_plain :
  forall pair rep, In pair Example.pairs -> In rep pair -> no_trailing_nul rep.
Proof.
  intros pair rep Hp Hr. simpl in Hp.
  destruct Hp as [<- | [<- | []]]; simpl in Hr;
    destruct Hr as [<- | [<- | []]]; reflexivity.
Qed.

Lemma example_names_plain :
  forall name, In name (List.concat Example.pairs) -> no_trailing_nul name.
Proof.
  intros name Hn. apply in_concat_pairs in Hn.
  destruct Hn as [p [Hp Hr]]. eapply example_pairs_plain; eauto.
Qed.

Lemma process_scores_transform_witness :
  exists m,
    process_scores Example.scores Example.pairs = Ok m
    /\ df_index m = ["pep_1"; "pep_2"; "pep_3"]
    /\ columns_named m "A"
       = [("A", [spec_transform (-10); spec_transform 0; spec_transform 120])]
    /\ columns_named m "B"
       = [("B", [spec_transform 1; spec_transform (-8); spec_transform 8])]
    /\ ~ In "C" (frame_labels m).
Proof.
  destruct (process_scores_transform Example.scores Example.pairs)
    as [m [Hm [Hidx [Hcols [Hnamed _]]]]].
  { intros pair rep Hp Hr.
    split; [eapply example_pairs_plain | eapply example_pairs_are_columns];
      eauto. }
  exists m. split; [exact Hm |].
  split; [exact Hidx |].
  split; [apply (Hnamed ["A"; "B"]); simpl; auto |].
  split; [apply (Hnamed ["A"; "B"]); simpl; auto |].
  intro HC. unfold frame_labels in HC. apply in_map_iff in HC.
  destruct HC as [[l col] [Hl Hin]]. simpl in Hl. subst l.
  apply Hcols in Hin. destruct Hin as [[p [Hp HCp]] _].
  simpl in Hp. destruct Hp as [<- | [<- | []]]; simpl in HCp;
    intuition discriminate.
Defined.

Lemma process_scores_columns_witness :
  exists m, process_scores Example.scores Example.pairs = Ok m
            /\ (forall c, In c (frame_labels m) <-> c = "A" \/ c = "B")
            /\ NoDup (frame_labels m).
Proof.
  destruct (process_scores_columns Example.scores Example.pairs)
    as [Hret [Hcols _]].
  destruct Hret as [m Hm].
  { intros pair rep Hp Hr. rewrite (example_pairs_plain pair rep Hp Hr).
    eapply example_pairs_are_columns; eauto. }
  exists m. split; [exact Hm |].
  destruct (Hcols m Hm) as [_ [Hplain Hnodup]].
  split.
  - intro c. rewrite (Hplain example_pairs_plain). split.
    + intros [p [Hp Hc]]. simpl in Hp.
      destruct Hp as [<- | [<- | []]]; simpl in Hc; intuition.
    + intros [-> | ->]; exists ["A"; "B"]; simpl; auto.
  - apply Hnodup. simpl. repeat constructor; simpl; intuition discriminate.
Defined.

Lemma process_scores_missing_replicate_witness :
  exists missing,
    process_scores Example.scores Example.pairs_missing
    = Err (KeyError missing)
    /\ In "Z" missing.
Proof.
  destruct (process_scores_missing_replicate
              Example.scores Example.pairs_missing ["A"; "Z"] "Z")
    as [missing [Herr [_ [_ [Hin _]]]]].
  - simpl. auto.
  - simpl. auto.
  - simpl. intuition discriminate.
  - exists missing. split; [exact Herr | apply Hin; reflexivity].
Defined.

Lemma process_scores_log_defined_witness :
  exists m, process_scores Example.scores Example.pairs = Ok m
            /\ Forall (fun c : Column => Forall (fun v => (-3 <= v)%R) (snd c))
                      (df_columns m).
Proof.
  destruct (process_scores_log_defined Example.scores Example.pairs)
    as [_ [_ [_ Hbound]]].
  assert (Hm : exists m, process_scores Example.scores Example.pairs = Ok m).
  { rewrite process_scores_eq, loc_columns_ok.
    - simpl. eauto.
    - intros l Hl. rewrite (np_unique_In_plain _ _ example_names_plain) in Hl.
      apply in_concat_pairs in Hl.
      destruct Hl as [p [Hp Hr]]. eapply example_pairs_are_columns; eauto. }
  destruct Hm as [m Hm]. exists m. split; [exact Hm | exact (Hbound m Hm)].
Defined.

(** ** Runs of the monad *)

Lemma mbind_ok {A B} (m : M A) (k : A -> M B) w b w' :
  mbind m k w = (Ok b, w') ->
  exists a w1, m w = (Ok a, w1) /\ k a w1 = (Ok b, w').
Proof.
  unfold mbind. destruct (m w) as [[a | e] w1]; intro H; [eauto | discriminate].
Qed.

Lemma mbind_run {A B} (m : M A) (k : A -> M B) w r w' :
  mbind m k w = (r, w') ->
  (exists e, m w = (Err e, w') /\ r = Err e)
  \/ (exists a w1, m w = (Ok a, w1) /\ k a w1 = (r, w')).
Proof.
  unfold mbind. destruct (m w) as [[a | e] w1]; intro H.
  - right. eauto.
  - left. injection H as <- <-. eauto.
Qed.

Lemma rbind_ok {A B} (r : Result A) (k : A -> Result B) b :
  rbind r k = Ok b -> exists a, r = Ok a /\ k a = Ok b.
Proof. destruct r; simpl; intro H; [eauto | discriminate]. Qed.

Lemma lift_ok {A} (r : Result A) w a w' :
  lift r w = (Ok a, w') -> r = Ok a /\ w' = w.
Proof. unfold lift. intro H. injection H as -> ->. auto. Qed.

(** ** The timer call (line 40) *)

Lemma perf_couter_raises w :
  time_call "perf_couter" w = (Err (AttributeError "time" "perf_couter"), w).
Proof. reflexivity. Qed.

Lemma make_psea_table_raises C a w :
  make_psea_table C a w = (Err (AttributeError "time" "perf_couter"), w).
Proof. reflexivity. Qed.

(** C2.  [time.perf_couter] is not an attribute of module [time]: the call
    raises [AttributeError] in every world, so at line 40 as at line 170.
    Every call of [make_psea_table] therefore ends at its first statement
    with that error, the world untouched: nothing is printed, and no run
    prints the elapsed-time line. *)
Theorem timer_call_always_raises (C : Collaborators) (a : Args) (w : World) :
  time_call "perf_couter" w = (Err (AttributeError "time" "perf_couter"), w)
  /\ make_psea_table C a w = (Err (AttributeError "time" "perf_couter"), w)
  /\ w_stdout (snd (make_psea_table C a w)) = w_stdout w
  /\ (forall plots w', make_psea_table C a w <> (Ok plots, w')).
Proof.
  split; [apply perf_couter_raises |].
  split; [apply make_psea_table_raises |].
  rewrite make_psea_table_raises. split; [reflexivity | discriminate].
Qed.

(** ** The validation (lines 45-48) *)

Lemma validate_rejects_spline_type C a w :
  existsb (String.eqb (spline_type a)) (SPLINE_TYPES C) = false ->
  validate C a w
  = (Err (AssertionError
            ("'" ++ spline_type a ++ "' is not a valid spline method!")%string),
     w).
Proof. intro H. unfold validate, mbind, py_assert. now rewrite H. Qed.

Lemma validate_rejects_existing_dir C a w :
  existsb (String.eqb (spline_type a)) (SPLINE_TYPES C) = true ->
  path_exists (table_dir a) (w_fs w) = true ->
  validate C a w
  = (Err (AssertionError
            ("'" ++ table_dir a
                 ++ "' already exists! Please move or remove this directory.")%string),
     w).
Proof.
  intros H1 H2. unfold validate, mbind, py_assert, os_path_exists.
  rewrite H1. simpl. now rewrite H2.
Qed.

Lemma validate_world C a w r w' : validate C a w = (r, w') -> w' = w.
Proof.
  unfold validate, mbind, py_assert, os_path_exists, ret, raise.
  destruct (existsb _ _); simpl.
  - destruct (path_exists _ _); simpl; intro H; now injection H.
  - intro H; now injection H.
Qed.

(** Once the two actions are resolved, lines 42-50 reject an unsupported
    [spline_type] and an existing [table_dir] before anything is created. *)
Lemma body_validates_first C a w volcano zscatter :
  ctx_get_action C "ps-plot" "volcano" = Ok volcano ->
  ctx_get_action C "ps-plot" "zscatter" = Ok zscatter ->
  existsb (String.eqb (spline_type a)) (SPLINE_TYPES C) = false
  \/ path_exists (table_dir a) (w_fs w) = true ->
  exists msg, make_psea_table_body C a w = (Err (AssertionError msg), w).
Proof.
  intros Hv Hz Hbad. unfold make_psea_table_body, mbind at 1 2 3, lift.
  rewrite Hv, Hz.
  destruct (existsb (String.eqb (spline_type a)) (SPLINE_TYPES C)) eqn:E.
  - destruct Hbad as [Hbad | Hbad]; [discriminate |].
    rewrite (validate_rejects_existing_dir C a w E Hbad). eauto.
  - rewrite (validate_rejects_spline_type C a w E). eauto.
Qed.

(** C3.  With [spline_type="linear"], and with a [table_dir] that exists,
    lines 45-48 raise the [AssertionError] naming the value or the path and
    leave the world untouched, and so do lines 42-168 as a whole; the call
    of [make_psea_table] never gets there: it stops at line 40 with the
    [AttributeError] of the timer call. *)
Theorem validation_preempted_by_timer :
  existsb (String.eqb (spline_type Example.args_linear))
          (SPLINE_TYPES Example.collaborators) = false
  /\ validate Example.collaborators Example.args_linear Example.world
     = (Err (AssertionError "'linear' is not a valid spline method!"),
        Example.world)
  /\ make_psea_table_body Example.collaborators Example.args_linear
                          Example.world
     = (Err (AssertionError "'linear' is not a valid spline method!"),
        Example.world)
  /\ make_psea_table Example.collaborators Example.args_linear Example.world
     = (Err (AttributeError "time" "perf_couter"), Example.world)
  /\ path_exists (table_dir Example.args) (w_fs Example.world_with_outdir) = true
  /\ validate Example.collaborators Example.args Example.world_with_outdir
     = (Err (AssertionError
               "'./psea_table_outdir' already exists! Please move or remove this directory."),
        Example.world_with_outdir)
  /\ make_psea_table Example.collaborators Example.args
                     Example.world_with_outdir
     = (Err (AttributeError "time" "perf_couter"), Example.world_with_outdir).
Proof.
  split; [reflexivity |].
  split; [reflexivity |].
  split; [reflexivity |].
  split; [apply make_psea_table_raises |].
  split; [reflexivity |].
  split; [reflexivity | apply make_psea_table_raises].
Qed.

(** ** One pair: the sorted selection and its series *)

Lemma insert_by_key_length p l :
  List.length (insert_by_key p l) = S (List.length l).
Proof.
  induction l as [| q t IH]; simpl; [reflexivity |].
  destruct (Rle_dec (fst p) (fst q)); simpl; auto.
Qed.

Lemma argsort_length keys : List.length (argsort keys) = List.length keys.
Proof.
  unfold argsort. rewrite length_map.
  assert (H : forall l : list (R * nat),
             List.length (fold_right insert_by_key [] l) = List.length l).
  { induction l as [| p t IH]; simpl; [reflexivity |].
    now rewrite insert_by_key_length, IH. }
  rewrite H, length_combine, length_seq. apply Nat.min_id.
Qed.

Lemma take_length {A} (d : A) l positions :
  List.length (take d l positions) = List.length positions.
Proof. apply length_map. Qed.

Lemma column_by_label_In df label col :
  column_by_label df label = Ok col -> In (label, col) (df_columns df).
Proof.
  unfold column_by_label.
  destruct (columns_named df label) as [| c [| c' t]] eqn:E; try discriminate.
  intro H. injection H as <-.
  assert (Hc : In c (columns_named df label)) by (rewrite E; now left).
  apply columns_named_In in Hc. destruct Hc as [Hin <-].
  now destruct c.
Qed.

Lemma sort_values_inv df label sorted :
  sort_values df label = Ok sorted ->
  exists keys,
    column_by_label df label = Ok keys
    /\ sorted = mkFrame (take EmptyString (df_index df) (argsort keys))
                        (map (fun c : Column =>
                                (fst c, take 0%R (snd c) (argsort keys)))
                             (df_columns df)).
Proof.
  unfold sort_values. intro H. apply rbind_ok in H.
  destruct H as [keys [Hk H]]. injection H as <-. eauto.
Qed.

Lemma pd_Series_inv data index s :
  pd_Series data index = Ok s ->
  s = mkSeries index data /\ List.length data = List.length index.
Proof.
  unfold pd_Series.
  destruct (Nat.eqb_spec (List.length data) (List.length index));
    intro H; [| discriminate].
  injection H as <-. auto.
Qed.

Lemma row_max_nth df i :
  i < List.length (df_index df) ->
  nth i (row_max df) 0%R = max_list (row_values df i).
Proof.
  intro Hi. unfold row_max.
  rewrite (nth_indep _ 0%R (max_list (row_values df 0)))
    by (now rewrite length_map, length_seq).
  rewrite (map_nth (fun i => max_list (row_values df i))).
  now rewrite seq_nth.
Qed.

Lemma np_sub_aligned a b diff :
  np_sub a b = Ok diff -> List.length b = List.length a ->
  List.length diff = List.length a
  /\ forall i, i < List.length a ->
               nth i diff 0%R = (nth i a 0 - nth i b 0)%R.
Proof.
  unfold np_sub. intros H Hlen. rewrite <- Hlen, Nat.eqb_refl in H.
  injection H as <-. rewrite length_map, length_combine, Hlen, Nat.min_id.
  split; [reflexivity |]. intros i Hi.
  rewrite (nth_indep _ 0%R ((fun p : R * R => (fst p - snd p)%R) (0%R, 0%R)))
    by (now rewrite length_map, length_combine, Hlen, Nat.min_id).
  rewrite (map_nth (fun p : R * R => (fst p - snd p)%R)).
  now rewrite combine_nth by auto.
Qed.

Lemma pair_series_inv C df pair p0 p1 st deg dof ps :
  pair_series C df pair p0 p1 st deg dof = Ok ps ->
  exists selected diff,
    loc_columns df pair = Ok selected
    /\ sort_values selected p0 = Ok (ps_sorted ps)
    /\ column_by_label (ps_sorted ps) p0 = Ok (ps_x ps)
    /\ column_by_label (ps_sorted ps) p1 = Ok (ps_y ps)
    /\ fit_spline C st (ps_x ps) (ps_y ps) deg dof = Ok (ps_yfit ps)
    /\ pd_Series (row_max (ps_sorted ps)) (df_index (ps_sorted ps))
       = Ok (ps_maxZ ps)
    /\ np_sub (ps_y ps) (ps_yfit ps) = Ok diff
    /\ pd_Series diff (df_index (ps_sorted ps)) = Ok (ps_deltaZ ps).
Proof.
  unfold pair_series. intro H.
  repeat (apply rbind_ok in H; destruct H as [? [? H]]).
  injection H as <-. simpl. eauto 12.
Qed.

(** Every column of the sorted selection, [x] and [y] among them, is as
    long as its index; with a well-formed input that is its row count. *)
Lemma pair_series_rows C df pair p0 p1 st deg dof ps :
  pair_series C df pair p0 p1 st deg dof = Ok ps ->
  List.length (ps_x ps) = List.length (df_index (ps_sorted ps))
  /\ List.length (ps_y ps) = List.length (df_index (ps_sorted ps))
  /\ (wf_frame df ->
      List.length (df_index (ps_sorted ps)) = List.length (df_index df)).
Proof.
  intro H. apply pair_series_inv in H.
  destruct H as [sel [diff [Hsel [Hsort [Hx [Hy _]]]]]].
  apply sort_values_inv in Hsort. destruct Hsort as [keys [Hkeys Hsorted]].
  assert (Hcol : forall l col, column_by_label (ps_sorted ps) l = Ok col ->
                   List.length col = List.length (df_index (ps_sorted ps))).
  { intros l col Hc. apply column_by_label_In in Hc.
    rewrite Hsorted in Hc |- *. simpl in *.
    apply in_map_iff in Hc. destruct Hc as [c [Hc _]].
    injection Hc as _ <-. now rewrite !take_length. }
  split; [eauto | split; [eauto |]].
  intro Hwf. rewrite Hsorted. simpl. rewrite take_length, argsort_length.
  apply column_by_label_In in Hkeys.
  apply loc_columns_inv in Hsel. destruct Hsel as [_ ->]. simpl in Hkeys.
  apply in_flat_map in Hkeys. destruct Hkeys as [l [_ Hin]].
  apply columns_named_In in Hin. destruct Hin as [Hin _].
  unfold wf_frame in Hwf. rewrite Forall_forall in Hwf.
  exact (Hwf _ Hin).
Qed.

(** ** One iteration and the whole loop *)

Lemma label_of_index pair p0 p1 :
  py_index pair 0 = Ok p0 -> py_index pair 1 = Ok p1 ->
  label_of pair = (p0 ++ "~" ++ p1)%string.
Proof.
  unfold py_index, label_of.
  destruct pair as [| a [| b t]]; simpl; try discriminate.
  intros H0 H1. injection H0 as <-. injection H1 as <-. reflexivity.
Qed.

Lemma pair_step_ok C a taxa dof df psets pair st w st' w' :
  pair_step C a taxa dof df psets pair st w = (Ok st', w') ->
  exists ps table,
    pair_series C df pair (nth 0 pair "") (nth 1 pair "")
                (spline_type a) (degree a) dof = Ok ps
    /\ 2 <= List.length pair
    /\ st' = mkLoopState
               (titles st ++ [label_of pair])
               (used_pairs st ++ [pair])
               (mkSplineDict
                  (sd_x (pair_spline_dict st) ++ ps_x ps)
                  (sd_y (pair_spline_dict st) ++ ps_yfit ps)
                  (sd_pair (pair_spline_dict st)
                     ++ repeat (label_of pair) (List.length (ps_x ps))))
    /\ w_trace w'
       = w_trace w
           ++ [CallPsea (ps_maxZ ps) (ps_deltaZ ps);
               WriteFile (table_dir a ++ "/" ++ label_of pair
                                    ++ "_psea_table.tsv")%string
                         (PTable table)].
Proof.
  unfold pair_step. intro H.
  apply mbind_ok in H. destruct H as [p0 [w1 [H0 H]]].
  apply lift_ok in H0. destruct H0 as [H0 ->].
  apply mbind_ok in H. destruct H as [p1 [w1 [H1 H]]].
  apply lift_ok in H1. destruct H1 as [H1 ->].
  rewrite <- (label_of_index pair p0 p1 H0 H1) in H.
  assert (Hlen : 2 <= List.length pair /\ nth 0 pair "" = p0
                 /\ nth 1 pair "" = p1).
  { unfold py_index in H0, H1.
    destruct pair as [| x [| y t]]; simpl in *; try discriminate.
    injection H0 as <-. injection H1 as <-. repeat split. lia. }
  destruct Hlen as [Hlen [E0 E1]]. subst p0 p1.
  apply mbind_ok in H. destruct H as [[] [w1 [Hp H]]].
  unfold print in Hp. injection Hp as <-.
  apply mbind_ok in H. destruct H as [ps [w2 [Hps H]]].
  apply lift_ok in Hps. destruct Hps as [Hps ->].
  apply mbind_ok in H. destruct H as [table [w3 [Ht H]]].
  unfold call_psea in Ht. injection Ht as Ht <-.
  apply mbind_ok in H. destruct H as [[] [w4 [Hw H]]].
  unfold write_file in Hw. injection Hw as <-.
  apply mbind_ok in H. destruct H as [taxa_col [w5 [Hc H]]].
  apply lift_ok in Hc. destruct Hc as [Hc ->].
  unfold ret in H. injection H as <- <-.
  exists ps, table. repeat split; auto.
  simpl. now rewrite <- app_assoc.
Qed.

Lemma pair_loop_ok C a taxa dof df psets :
  forall pairs st w st' w',
    pair_loop C a taxa dof df psets pairs st w = (Ok st', w') ->
    used_pairs st' = used_pairs st ++ pairs
    /\ titles st' = titles st ++ map label_of pairs
    /\ Forall (fun p : Pair => 2 <= List.length p) pairs
    /\ (exists evs, w_trace w' = w_trace w ++ evs /\ Forall loop_event evs)
    /\ (wf_frame df ->
        sd_pair (pair_spline_dict st')
        = sd_pair (pair_spline_dict st)
            ++ flat_map (fun p => repeat (label_of p)
                                         (List.length (df_index df))) pairs
        /\ List.length (sd_x (pair_spline_dict st'))
           = List.length (sd_x (pair_spline_dict st))
             + List.length pairs * List.length (df_index df)
        /\ (splines_aligned C ->
            List.length (sd_y (pair_spline_dict st'))
            = List.length (sd_y (pair_spline_dict st))
              + List.length pairs * List.length (df_index df))).
Proof.
  induction pairs as [| p rest IH]; intros st w st' w' H.
  - simpl in H. unfold ret in H. injection H as <- <-.
    rewrite !app_nil_r. simpl. repeat split; auto.
    exists []. now rewrite app_nil_r.
  - simpl in H. apply mbind_ok in H. destruct H as [st1 [w1 [Hstep Hrest]]].
    apply pair_step_ok in Hstep.
    destruct Hstep as [ps [table [Hps [Hlen [-> Htr]]]]].
    apply IH in Hrest.
    destruct Hrest as [Hused [Htitles [Hlens [[evs [Hevs Hall]] Hdict]]]].
    simpl in Hused, Htitles, Hdict.
    split; [rewrite Hused, <- app_assoc; reflexivity |].
    split; [rewrite Htitles, <- app_assoc; reflexivity |].
    split; [constructor; assumption |].
    split.
    { eexists. rewrite Hevs, Htr, <- app_assoc. split; [reflexivity |].
      apply Forall_app. split; [| assumption].
      repeat constructor. }
    intro Hwf. destruct (Hdict Hwf) as [Hlabels [Hx Hy]].
    destruct (pair_series_rows _ _ _ _ _ _ _ _ _ Hps) as [Hxr [Hyr Hrows]].
    rewrite <- Hxr in Hyr. rewrite (Hrows Hwf) in Hxr.
    split; [| split].
    + rewrite Hlabels, Hxr, <- app_assoc. reflexivity.
    + rewrite Hx, length_app, Hxr. simpl. lia.
    + intro Hal. rewrite (Hy Hal), length_app.
      apply pair_series_inv in Hps.
      destruct Hps as [sel [diff [_ [_ [_ [_ [Hfit _]]]]]]].
      rewrite (Hal _ _ _ _ _ _ Hyr Hfit), Hxr. simpl. lia.
Qed.

(** ** The accumulated spline record *)

Lemma flat_map_repeat_length {A B} (f : A -> B) n l :
  List.length (flat_map (fun p => repeat (f p) n) l) = List.length l * n.
Proof.
  induction l as [| p t IH]; simpl; [reflexivity |].
  now rewrite length_app, repeat_length, IH.
Qed.

Lemma flat_map_repeat_In {A B} (f : A -> B) n l b :
  In b (flat_map (fun p => repeat (f p) n) l) -> exists p, In p l /\ f p = b.
Proof.
  intro H. apply in_flat_map in H. destruct H as [p [Hp Hb]].
  apply repeat_spec in Hb. eauto.
Qed.

Lemma example_splines_aligned : splines_aligned Example.collaborators.
Proof.
  intros st x y deg dof yfit Hlen H. unfold fit_spline in H. simpl in H.
  destruct (String.eqb st "py-smooth"), (String.eqb st "cubic");
    injection H as <-; exact Hlen.
Qed.

Lemma example_one_row_wf : wf_frame Example.one_row.
Proof. repeat constructor. Qed.

(** C8 (amended).  When the loop completes, on a well-formed filtered matrix
    and with spline collaborators that return one fitted value per point, the
    processed pairs are the input pairs, the three sequences of the spline
    record have one length, the number of pairs times the row count of the
    filtered matrix (every pair contributes that many rows), and the labels
    are, pair after pair in input order, that many copies of the pair's
    ["{baseline}~{treatment}"].  Every row's label is thus the label of some
    processed pair, and of exactly one when no two different processed
    pairs have the same label. *)
Theorem spline_record_rows
        (C : Collaborators) (a : Args) (taxa_access : string) (dof : option Z)
        (processed_scores : DataFrame) (peptide_sets : PeptideSets)
        (pairs : list Pair) (st : LoopState) (w w' : World) :
  splines_aligned C ->
  wf_frame processed_scores ->
  pair_loop C a taxa_access dof processed_scores peptide_sets pairs
            initial_state w = (Ok st, w') ->
  used_pairs st = pairs
  /\ List.length (sd_x (pair_spline_dict st))
     = List.length pairs * List.length (df_index processed_scores)
  /\ List.length (sd_y (pair_spline_dict st))
     = List.length pairs * List.length (df_index processed_scores)
  /\ List.length (sd_pair (pair_spline_dict st))
     = List.length pairs * List.length (df_index processed_scores)
  /\ sd_pair (pair_spline_dict st)
     = flat_map (fun p => repeat (label_of p)
                                 (List.length (df_index processed_scores)))
                pairs
  /\ (forall label, In label (sd_pair (pair_spline_dict st)) ->
                    exists p, In p pairs /\ label_of p = label)
  /\ ((forall p q, In p pairs -> In q pairs ->
                   label_of p = label_of q -> p = q) ->
      forall label, In label (sd_pair (pair_spline_dict st)) ->
                    labels_one_pair pairs label).
Proof.
  intros Hal Hwf H. apply pair_loop_ok in H.
  destruct H as [Hused [_ [_ [_ Hdict]]]].
  destruct (Hdict Hwf) as [Hlabels [Hx Hy]]. specialize (Hy Hal).
  simpl in Hused, Hlabels, Hx, Hy.
  split; [assumption |]. split; [assumption |]. split; [assumption |].
  rewrite Hlabels.
  split; [apply flat_map_repeat_length |]. split; [reflexivity |].
  split; [intros label Hl; now apply flat_map_repeat_In in Hl |].
  intros Hinj label Hl. apply flat_map_repeat_In in Hl.
  destruct Hl as [p [Hp Hlab]]. exists p. repeat split; auto.
  intros q Hq Hql. apply Hinj; congruence.
Qed.

Lemma spline_record_rows_witness :
  exists st w',
    pair_loop Example.collaborators Example.args "ID" None Example.one_row []
              Example.two_pairs initial_state Example.world = (Ok st, w')
    /\ used_pairs st = Example.two_pairs
    /\ List.length (sd_x (pair_spline_dict st))
       = List.length Example.two_pairs
         * List.length (df_index Example.one_row)
    /\ List.length (sd_y (pair_spline_dict st))
       = List.length Example.two_pairs
         * List.length (df_index Example.one_row)
    /\ List.length (sd_pair (pair_spline_dict st))
       = List.length Example.two_pairs
         * List.length (df_index Example.one_row)
    /\ sd_pair (pair_spline_dict st)
       = flat_map (fun p => repeat (label_of p)
                                   (List.length (df_index Example.one_row)))
                  Example.two_pairs
    /\ (forall label, In label (sd_pair (pair_spline_dict st)) ->
                      exists p, In p Example.two_pairs /\ label_of p = label)
    /\ ((forall p q, In p Example.two_pairs -> In q Example.two_pairs ->
                     label_of p = label_of q -> p = q) ->
        forall label, In label (sd_pair (pair_spline_dict st)) ->
                      labels_one_pair Example.two_pairs label).
Proof.
  eexists. eexists. split; [reflexivity |].
  eapply (spline_record_rows Example.collaborators Example.args "ID" None
                             Example.one_row [] Example.two_pairs _
                             Example.world).
  - exact example_splines_aligned.
  - exact example_one_row_wf.
  - reflexivity.
Defined.

(** C8 as stated fails: the pairs [("A~B", "C")] and [("A", "B~C")] are both
    processed, both label their rows ["A~B~C"], and the rows so labelled
    cannot be told apart. *)
Lemma spline_label_of_two_pairs :
  exists st w',
    pair_loop Example.collaborators Example.args "ID" None Example.one_row []
              Example.colliding_pairs initial_state Example.world = (Ok st, w')
    /\ used_pairs st = [["A~B"; "C"]; ["A"; "B~C"]]
    /\ sd_pair (pair_spline_dict st) = ["A~B~C"; "A~B~C"]
    /\ ~ labels_one_pair (used_pairs st) "A~B~C".
Proof.
  eexists. eexists. split; [reflexivity |].
  split; [reflexivity |]. split; [reflexivity |].
  intros [p [_ [_ Huniq]]].
  assert (H1 : ["A~B"; "C"] = p) by (apply Huniq; simpl; auto).
  assert (H2 : ["A"; "B~C"] = p) by (apply Huniq; simpl; auto).
  rewrite <- H1 in H2. discriminate.
Qed.

(** ** The temporary-directory block and the whole body *)

Lemma read_fs_ok {A} (f : FileSystem -> Result A) w a w' :
  read_fs f w = (Ok a, w') -> f (w_fs w) = Ok a /\ w' = w.
Proof. unfold read_fs. intro H. injection H as -> ->. auto. Qed.

Lemma call_action_ok act plugin name kw w res w' :
  call_action act plugin name kw w = (Ok res, w') ->
  w' = log_event (CallAction plugin name kw) w.
Proof.
  unfold call_action.
  destruct (act kw (w_fs w)) as [[| x [| y l]] | e]; intro H;
    try discriminate.
  now injection H.
Qed.

Lemma action_calls_app tr1 tr2 :
  action_calls (tr1 ++ tr2) = action_calls tr1 ++ action_calls tr2.
Proof. apply flat_map_app. Qed.

Lemma action_calls_loop_events evs :
  Forall loop_event evs -> action_calls evs = [].
Proof.
  induction 1 as [| e t He _ IH]; [reflexivity |].
  unfold action_calls in *. simpl. rewrite IH.
  destruct e; simpl in *; auto. contradiction.
Qed.

Lemma tempdir_block_ok C a zscatter volcano pairs df file tempdir w plots w' :
  tempdir_block C a zscatter volcano pairs df file tempdir w = (Ok plots, w') ->
  exists st evs art,
    used_pairs st = pairs
    /\ titles st = map label_of pairs
    /\ Forall loop_event evs
    /\ w_trace w'
       = w_trace w
           ++ [WriteFile file (PFrame df)]
           ++ evs
           ++ [WriteFile (tempdir ++ "/used_pairs.tsv")%string (PPairs pairs);
               WriteFile (tempdir ++ "/spline_data.tsv")%string
                         (PSpline (pair_spline_dict st));
               CallAction "ps-plot" "zscatter"
                 (KwZscatter
                    (mkZscatterKw art
                       (tempdir ++ "/used_pairs.tsv")%string
                       (tempdir ++ "/spline_data.tsv")%string
                       "p.adjust" "core_enrichment"
                       (resolve_taxa_access (species_taxa_file a))
                       (table_dir a) (p_val_thresh a)));
               CallAction "ps-plot" "volcano"
                 (KwVolcano
                    (mkVolcanoKw (table_dir a) ["NES"; "p.adjust"]
                       (resolve_taxa_access (species_taxa_file a))
                       (es_thresh a) (p_val_thresh a)
                       ["Enrichment score"; "Adjusted p-values"]
                       (map label_of pairs)))].
Proof.
  unfold tempdir_block. intro H.
  apply mbind_ok in H. destruct H as [[] [w1 [Hw H]]].
  unfold write_file in Hw. injection Hw as <-.
  apply mbind_ok in H. destruct H as [filtered [w2 [Hf H]]].
  apply read_fs_ok in Hf. destruct Hf as [_ ->].
  apply mbind_ok in H. destruct H as [st [w3 [Hloop H]]].
  apply pair_loop_ok in Hloop.
  destruct Hloop as [Hused [Htitles [_ [[evs [Hevs Hall]] _]]]].
  simpl in Hused, Htitles, Hevs.
  apply mbind_ok in H. destruct H as [[] [w4 [Hw H]]].
  unfold write_file in Hw. injection Hw as <-.
  apply mbind_ok in H. destruct H as [frame [w5 [Hd H]]].
  apply lift_ok in Hd. destruct Hd as [Hd ->].
  assert (frame = pair_spline_dict st) as ->.
  { unfold pd_DataFrame_of_dict in Hd.
    destruct (_ && _); [now injection Hd | discriminate]. }
  apply mbind_ok in H. destruct H as [[] [w6 [Hw H]]].
  unfold write_file in Hw. injection Hw as <-.
  apply mbind_ok in H. destruct H as [art [w7 [Ha H]]].
  apply read_fs_ok in Ha. destruct Ha as [_ ->].
  apply mbind_ok in H. destruct H as [scatter [w8 [Hz H]]].
  apply call_action_ok in Hz. subst w8.
  apply mbind_ok in H. destruct H as [volc [w9 [Hv H]]].
  apply call_action_ok in Hv. subst w9.
  unfold ret in H. injection H as _ <-.
  exists st, evs, art. rewrite Hused, Htitles.
  repeat split; auto.
  simpl. rewrite Hevs. now rewrite <- !app_assoc.
Qed.

Lemma open_readlines_ok path w lines w' :
  open_readlines path w = (Ok lines, w') ->
  w' = w /\ exists text, file_content path (w_fs w) = Some text
                         /\ lines = readlines text.
Proof.
  unfold open_readlines.
  destruct (file_content path (w_fs w)) as [text |].
  - intro H. injection H as <- <-. eauto.
  - destruct (existsb _ _); discriminate.
Qed.

Lemma with_tempdir_inv {A} C (body : string -> M A) w r w' :
  with_tempdir C body w = (r, w') ->
  exists w1,
    body (mkdtemp C (w_fs w))
         (log_event (Mkdir (mkdtemp C (w_fs w)))
            (set_fs (mkFS (mkdtemp C (w_fs w) :: fs_dirs (w_fs w))
                          (fs_files (w_fs w))) w))
    = (r, w1)
    /\ w_trace w' = w_trace w1.
Proof.
  unfold with_tempdir.
  destruct (body _ _) as [r1 w1]. intro H. injection H as <- <-. eauto.
Qed.

Lemma os_mkdir_ok path w w' :
  os_mkdir path w = (Ok tt, w') ->
  w' = log_event (Mkdir path)
         (set_fs (mkFS (path :: fs_dirs (w_fs w)) (fs_files (w_fs w))) w).
Proof.
  unfold os_mkdir. destruct (path_exists path (w_fs w)); intro H;
    [discriminate | now injection H].
Qed.

Lemma make_psea_table_body_ok C a w plots w' :
  make_psea_table_body C a w = (Ok plots, w') ->
  exists text processed file tempdir st evs art,
    file_content (pairs_file a) (w_fs w) = Some text
    /\ transformed_name (scores_file a) = Ok file
    /\ used_pairs st = map parse_pair (readlines text)
    /\ Forall loop_event evs
    /\ w_trace w'
       = w_trace w
           ++ [Mkdir (table_dir a); Mkdir tempdir]
           ++ [WriteFile file (PFrame processed)]
           ++ evs
           ++ [WriteFile (tempdir ++ "/used_pairs.tsv")%string
                         (PPairs (map parse_pair (readlines text)));
               WriteFile (tempdir ++ "/spline_data.tsv")%string
                         (PSpline (pair_spline_dict st));
               CallAction "ps-plot" "zscatter"
                 (KwZscatter
                    (mkZscatterKw art
                       (tempdir ++ "/used_pairs.tsv")%string
                       (tempdir ++ "/spline_data.tsv")%string
                       "p.adjust" "core_enrichment"
                       (resolve_taxa_access (species_taxa_file a))
                       (table_dir a) (p_val_thresh a)));
               CallAction "ps-plot" "volcano"
                 (KwVolcano
                    (mkVolcanoKw (table_dir a) ["NES"; "p.adjust"]
                       (resolve_taxa_access (species_taxa_file a))
                       (es_thresh a) (p_val_thresh a)
                       ["Enrichment score"; "Adjusted p-values"]
                       (map label_of (map parse_pair (readlines text)))))].
Proof.
  unfold make_psea_table_body. intro H.
  apply mbind_ok in H. destruct H as [volcano [w1 [Hv H]]].
  apply lift_ok in Hv. destruct Hv as [_ ->].
  apply mbind_ok in H. destruct H as [zscatter [w1 [Hz H]]].
  apply lift_ok in Hz. destruct Hz as [_ ->].
  apply mbind_ok in H. destruct H as [[] [w1 [Hval H]]].
  apply validate_world in Hval. subst w1.
  apply mbind_ok in H. destruct H as [[] [w1 [Hmk H]]].
  apply os_mkdir_ok in Hmk. subst w1.
  apply mbind_ok in H. destruct H as [lines [w1 [Hl H]]].
  apply open_readlines_ok in Hl. destruct Hl as [-> [text [Htext ->]]].
  simpl in Htext.
  apply mbind_ok in H. destruct H as [scores [w1 [Hs H]]].
  apply read_fs_ok in Hs. destruct Hs as [_ ->].
  apply mbind_ok in H. destruct H as [processed [w1 [Hp H]]].
  apply lift_ok in Hp. destruct Hp as [_ ->].
  apply mbind_ok in H. destruct H as [file [w1 [Hn H]]].
  apply lift_ok in Hn. destruct Hn as [Hn ->].
  apply with_tempdir_inv in H. destruct H as [w1 [H Htr]].
  apply tempdir_block_ok in H.
  destruct H as [st [evs [art [Hused [_ [Hall Hblock]]]]]].
  eexists text, processed, file, _, st, evs, art.
  split; [exact Htext |]. split; [exact Hn |]. split; [exact Hused |].
  split; [exact Hall |].
  rewrite Htr, Hblock. simpl. rewrite <- !app_assoc. reflexivity.
Qed.

(** ** The actions called by any run, failed or not *)

Lemma calls_bind t {A B} (m : M A) (k : A -> M B) :
  calls_with_taxa t m -> (forall a, calls_with_taxa t (k a)) ->
  calls_with_taxa t (mbind m k).
Proof.
  intros Hm Hk w r w' H. apply mbind_run in H.
  destruct H as [[e [H _]] | [a [w1 [H1 H2]]]].
  - exact (Hm _ _ _ H).
  - destruct (Hm _ _ _ H1) as [c1 [E1 F1]].
    destruct (Hk a _ _ _ H2) as [c2 [E2 F2]].
    exists (c1 ++ c2). rewrite E2, E1, <- app_assoc.
    split; [reflexivity | now apply Forall_app].
Qed.

Lemma calls_quiet t {A} (m : M A) :
  (forall w r w', m w = (r, w') ->
                  action_calls (w_trace w') = action_calls (w_trace w)) ->
  calls_with_taxa t m.
Proof.
  intros Hq w r w' H. exists []. rewrite app_nil_r. split; [eauto | constructor].
Qed.

Lemma action_calls_quiet_event tr e :
  (forall plugin name kw, e <> CallAction plugin name kw) ->
  action_calls (tr ++ [e]) = action_calls tr.
Proof.
  intro H. rewrite action_calls_app.
  destruct e; simpl; try apply app_nil_r.
  exfalso. eapply H. reflexivity.
Qed.

Lemma calls_lift t {A} (r : Result A) : calls_with_taxa t (lift r).
Proof. apply calls_quiet. unfold lift. intros w r0 w' H. now injection H as _ <-. Qed.

Lemma calls_ret t {A} (a : A) : calls_with_taxa t (ret a).
Proof. apply calls_quiet. unfold ret. intros w r0 w' H. now injection H as _ <-. Qed.

Lemma calls_read_fs t {A} (f : FileSystem -> Result A) :
  calls_with_taxa t (read_fs f).
Proof.
  apply calls_quiet. unfold read_fs. intros w r0 w' H. now injection H as _ <-.
Qed.

Lemma calls_print t text : calls_with_taxa t (print text).
Proof.
  apply calls_quiet. unfold print. intros w r0 w' H. now injection H as _ <-.
Qed.

Lemma calls_write_file t C path data : calls_with_taxa t (write_file C path data).
Proof.
  apply calls_quiet. unfold write_file. intros w r0 w' H.
  injection H as _ <-. simpl. now apply action_calls_quiet_event.
Qed.

Lemma calls_call_psea t C a maxZ deltaZ psets :
  calls_with_taxa t (call_psea C a maxZ deltaZ psets).
Proof.
  apply calls_quiet. unfold call_psea. intros w r0 w' H.
  injection H as _ <-. simpl. now apply action_calls_quiet_event.
Qed.

Lemma calls_os_mkdir t path : calls_with_taxa t (os_mkdir path).
Proof.
  apply calls_quiet. unfold os_mkdir. intros w r0 w'.
  destruct (path_exists path (w_fs w)); intro H; injection H as _ <-;
    [reflexivity |].
  simpl. now apply action_calls_quiet_event.
Qed.

Lemma calls_open_readlines t path : calls_with_taxa t (open_readlines path).
Proof.
  apply calls_quiet. unfold open_readlines. intros w r0 w'.
  destruct (file_content path (w_fs w)); [| destruct (existsb _ _)];
    intro H; now injection H as _ <-.
Qed.

Lemma calls_validate t C a : calls_with_taxa t (validate C a).
Proof.
  apply calls_quiet. intros w r w' H. apply validate_world in H. now subst.
Qed.

Lemma calls_time_call t attr : calls_with_taxa t (time_call attr).
Proof.
  apply calls_quiet. unfold time_call. intros w r w'.
  destruct (existsb _ _); [| destruct (existsb _ _)];
    intro H; now injection H as _ <-.
Qed.

Lemma calls_call_action t act plugin name kw :
  kw_taxa_access kw = t -> calls_with_taxa t (call_action act plugin name kw).
Proof.
  intros Ht w r w' H. exists [(name, kw)].
  split; [| now repeat constructor].
  unfold call_action in H.
  destruct (act kw (w_fs w)) as [[| x [| y l]] | e]; injection H as _ <-;
    simpl; now rewrite action_calls_app.
Qed.

Lemma calls_pair_loop t C a taxa dof df psets pairs :
  forall st, calls_with_taxa t (pair_loop C a taxa dof df psets pairs st).
Proof.
  induction pairs as [| p rest IH]; intro st; simpl; [apply calls_ret |].
  apply calls_bind; [| exact IH].
  unfold pair_step.
  repeat (apply calls_bind; [| intro]);
    auto using calls_lift, calls_ret, calls_print, calls_call_psea,
               calls_write_file.
Qed.

Lemma calls_tempdir_block C a zscatter volcano pairs df file tempdir :
  calls_with_taxa (resolve_taxa_access (species_taxa_file a))
                  (tempdir_block C a zscatter volcano pairs df file tempdir).
Proof.
  unfold tempdir_block.
  repeat (apply calls_bind; [| intro]);
    auto using calls_lift, calls_ret, calls_read_fs, calls_write_file,
               calls_pair_loop, calls_call_action.
Qed.

Lemma calls_with_tempdir t {A} C (body : string -> M A) :
  (forall d, calls_with_taxa t (body d)) -> calls_with_taxa t (with_tempdir C body).
Proof.
  intros Hb w r w' H. apply with_tempdir_inv in H. destruct H as [w1 [H Htr]].
  destruct (Hb _ _ _ _ H) as [calls [E F]]. exists calls. split; [| exact F].
  rewrite Htr, E. simpl. now rewrite action_calls_quiet_event.
Qed.

Lemma calls_make_psea_table_body C a :
  calls_with_taxa (resolve_taxa_access (species_taxa_file a))
                  (make_psea_table_body C a).
Proof.
  unfold make_psea_table_body.
  do 2 (apply calls_bind; [apply calls_lift | intro]).
  apply calls_bind; [apply calls_validate | intro].
  apply calls_bind; [apply calls_os_mkdir | intro].
  apply calls_bind; [apply calls_open_readlines | intro].
  apply calls_bind; [apply calls_read_fs | intro].
  do 2 (apply calls_bind; [apply calls_lift | intro]).
  apply calls_with_tempdir. intro d. apply calls_tempdir_block.
Qed.

Lemma calls_make_psea_table C a :
  calls_with_taxa (resolve_taxa_access (species_taxa_file a))
                  (make_psea_table C a).
Proof.
  unfold make_psea_table.
  apply calls_bind; [apply calls_time_call | intro].
  apply calls_bind; [apply calls_make_psea_table_body | intro].
  apply calls_bind; [apply calls_time_call | intro].
  apply calls_bind; [| intro; apply calls_ret].
  apply calls_quiet. intros w r w' H. now injection H as _ <-.
Qed.

(** ** Example runs of lines 42-168 *)

Lemma mbind_step {A B} (m : M A) (k : A -> M B) w a w1 :
  m w = (Ok a, w1) -> mbind m k w = k a w1.
Proof. intro H. unfold mbind. now rewrite H. Qed.

Ltac eval_run := lazy -[spec_transform Rmax Rminus IZR Rle_dec]; reflexivity.

Ltac run_step := erewrite mbind_step by eval_run; cbv beta.

Ltac run_process_scores :=
  erewrite mbind_step
    by (unfold lift; rewrite process_scores_eq; eval_run);
  cbv beta.

Ltac run_body :=
  unfold make_psea_table_body;
  do 6 run_step; run_process_scores; run_step; eval_run.

Lemma example_body_run :
  exists plots w',
    make_psea_table_body Example.collaborators Example.args Example.world
    = (Ok plots, w').
Proof. eexists. eexists. run_body. Qed.

Lemma example_body_run_taxa :
  exists plots w',
    make_psea_table_body Example.collaborators Example.args_taxa Example.world
    = (Ok plots, w').
Proof. eexists. eexists. run_body. Qed.

(** ** The persisted pair list and the taxon column name *)

(** C6 (amended).  When lines 42-168 complete, the pair list written to
    [used_pairs.tsv] in the temporary directory is the list of pairs parsed
    from the pairs file, every line once per occurrence and in file order;
    no other pair list is written.  Nothing removes a repeated pair. *)
Theorem used_pairs_persisted
        (C : Collaborators) (a : Args) (w : World)
        (plots : Artifact * Artifact) (w' : World) :
  make_psea_table_body C a w = (Ok plots, w') ->
  exists text tempdir before after,
    file_content (pairs_file a) (w_fs w) = Some text
    /\ w_trace w'
       = w_trace w ++ before
           ++ [WriteFile (tempdir ++ "/used_pairs.tsv")%string
                         (PPairs (map parse_pair (readlines text)))]
           ++ after
    /\ (forall path l, ~ In (WriteFile path (PPairs l)) (before ++ after)).
Proof.
  intro H. apply make_psea_table_body_ok in H.
  destruct H as [text [processed [file [tempdir [st [evs [art H]]]]]]].
  destruct H as [Htext [_ [_ [Hall Htr]]]].
  exists text, tempdir.
  exists ([Mkdir (table_dir a); Mkdir tempdir]
            ++ [WriteFile file (PFrame processed)] ++ evs).
  eexists. split; [exact Htext |]. split.
  - rewrite Htr. rewrite <- !app_assoc. simpl. reflexivity.
  - intros path l Hin. rewrite <- !app_assoc in Hin. simpl in Hin.
    destruct Hin as [Hin | [Hin | [Hin | Hin]]]; try discriminate.
    apply in_app_or in Hin. destruct Hin as [Hin | Hin].
    + rewrite Forall_forall in Hall. exact (Hall _ Hin).
    + simpl in Hin. destruct Hin as [Hin | [Hin | [Hin | []]]]; discriminate.
Qed.

Lemma used_pairs_persisted_witness :
  exists plots w' text tempdir before after,
    make_psea_table_body Example.collaborators Example.args Example.world
    = (Ok plots, w')
    /\ file_content (pairs_file Example.args) (w_fs Example.world) = Some text
    /\ w_trace w'
       = w_trace Example.world ++ before
           ++ [WriteFile (tempdir ++ "/used_pairs.tsv")%string
                         (PPairs (map parse_pair (readlines text)))]
           ++ after
    /\ (forall path l, ~ In (WriteFile path (PPairs l)) (before ++ after)).
Proof.
  destruct example_body_run as [plots [w' Hrun]].
  destruct (used_pairs_persisted _ _ _ _ _ Hrun)
    as [text [tempdir [before [after H]]]].
  exists plots, w', text, tempdir, before, after. tauto.
Defined.

(** C6 as stated fails: with the line ["A\tB"] twice in the pairs file the
    run completes and the pair list written to [used_pairs.tsv] holds the
    pair twice. *)
Lemma used_pairs_keep_duplicates :
  exists plots w',
    make_psea_table_body Example.collaborators Example.args
                         Example.world_duplicated
    = (Ok plots, w')
    /\ In (WriteFile "/tmp/tmp_psea/used_pairs.tsv"
                     (PPairs [["A"; "B"]; ["A"; "B"]]))
          (w_trace w')
    /\ ~ NoDup [["A"; "B"]; ["A"; "B"]].
Proof.
  eexists. eexists. split; [run_body |].
  split.
  - simpl. repeat (try (left; reflexivity); right).
  - intro Hnd. inversion Hnd as [| ? ? Hno _]; subst. apply Hno. now left.
Qed.

Lemma resolve_taxa_access_cases species_taxa_file :
  (species_taxa_file <> "" ->
   resolve_taxa_access species_taxa_file = "species_name")
  /\ (species_taxa_file = "" -> resolve_taxa_access species_taxa_file = "ID").
Proof.
  unfold resolve_taxa_access.
  destruct (String.eqb_spec species_taxa_file ""); split; intro;
    congruence.
Qed.

(** C7.  A call that supplies [species_taxa_file], and the call with the
    default empty one: the name resolves to ["species_name"], respectively
    ["ID"], but [make_psea_table] raises [AttributeError] at its first
    statement, leaves the world as it found it and calls no action, so the
    name is passed to neither [zscatter] nor [volcano].  Lines 42-168 run
    from the same worlds do complete, calling [zscatter], then [volcano],
    each with the resolved name. *)
Theorem taxa_access_never_passed :
  resolve_taxa_access (species_taxa_file Example.args_taxa) = "species_name"
  /\ resolve_taxa_access (species_taxa_file Example.args) = "ID"
  /\ make_psea_table Example.collaborators Example.args_taxa Example.world
     = (Err (AttributeError "time" "perf_couter"), Example.world)
  /\ make_psea_table Example.collaborators Example.args Example.world
     = (Err (AttributeError "time" "perf_couter"), Example.world)
  /\ action_calls (w_trace Example.world) = []
  /\ (exists plots w',
         make_psea_table_body Example.collaborators Example.args_taxa
                              Example.world = (Ok plots, w')
         /\ map (fun c : string * Kwargs => (fst c, kw_taxa_access (snd c)))
                (action_calls (w_trace w'))
            = [("zscatter", "species_name"); ("volcano", "species_name")])
  /\ (exists plots w',
         make_psea_table_body Example.collaborators Example.args
                              Example.world = (Ok plots, w')
         /\ map (fun c : string * Kwargs => (fst c, kw_taxa_access (snd c)))
                (action_calls (w_trace w'))
            = [("zscatter", "ID"); ("volcano", "ID")]).
Proof.
  split; [reflexivity |]. split; [reflexivity |].
  split; [apply make_psea_table_raises |].
  split; [apply make_psea_table_raises |].
  split; [reflexivity |].
  split; eexists; eexists; (split; [run_body | reflexivity]).
Qed.

(** ** Checks of the embedding on concrete inputs *)

Example np_unique_sorts_and_dedups :
  np_unique ["B"; "A"; "B"; "C"; "A"] = ["A"; "B"; "C"].
Proof. reflexivity. Qed.

Example np_unique_drops_trailing_nul :
  np_unique [Example.A_nul; "A"] = ["A"]
  /\ rstrip_nul (String "A" (String nul (String nul EmptyString))) = "A"
  /\ rstrip_nul (String "A" (String nul (String "B" EmptyString)))
     = String "A" (String nul (String "B" EmptyString)).
Proof. repeat split. Qed.

Example readlines_keeps_newlines :
  readlines (String "a" (String newline (String "b" EmptyString)))
  = [String "a" (String newline EmptyString); "b"].
Proof. reflexivity. Qed.

Example parse_pair_splits_on_tab :
  parse_pair (String "A" (String tab (String "B" (String newline EmptyString))))
  = ["A"; "B"]
  /\ parse_pair "A" = ["A"]
  /\ parse_pair "" = [""].
Proof. repeat split. Qed.

Example transformed_name_takes_basename :
  transformed_name "data/in/scores.tsv" = Ok "transformed_scores.tsv"
  /\ transformed_name "scores.tsv" = Ok "transformed_scores.tsv"
  /\ rsplit1 slash "data/in/scores.tsv" = ["data/in"; "scores.tsv"].
Proof. repeat split. Qed.

Example argsort_orders_by_key : argsort [2%R; 1%R; 3%R] = [1; 0; 2].
Proof.
  unfold argsort. simpl.
  repeat match goal with
         | |- context [Rle_dec ?a ?b] =>
             destruct (Rle_dec a b); try lra; simpl
         end.
  reflexivity.
Qed.

Example np_sub_broadcasts :
  np_sub [5%R; 7%R] [1%R] = Ok [(5 - 1)%R; (7 - 1)%R]
  /\ np_sub [5%R; 7%R] [1%R; 2%R] = Ok [(5 - 1)%R; (7 - 2)%R]
  /\ np_sub [5%R; 7%R] [1%R; 2%R; 3%R]
     = Err (ValueError "operands could not be broadcast together").
Proof. repeat split. Qed.

(** The correctly spelled timer is an attribute of [time]. *)
Example perf_counter_returns w :
  time_call "perf_counter" w = (Ok (w_clock w), w).
Proof. reflexivity. Qed.

Lemma spec_transform_at_0 : spec_transform 0 = 0%R.
Proof.
  unfold spec_transform, log2. rewrite Rmax_right by lra.
  replace (0 + 8)%R with (2 ^ 3)%R by lra.
  rewrite ln_pow by lra. simpl INR.
  pose proof ln_2_pos. field. lra.
Qed.

Example process_scores_on_example :
  process_scores Example.scores Example.pairs
  = Ok (mkFrame ["pep_1"; "pep_2"; "pep_3"]
                [("A", [(-3)%R; 0%R; spec_transform 120]);
                 ("B", [spec_transform 1; (-3)%R; spec_transform 8])]).
Proof.
  rewrite process_scores_eq.
  lazy -[spec_transform IZR].
  rewrite (spec_transform_clamped (-10)), (spec_transform_clamped (-8)) by lra.
  now rewrite spec_transform_at_0.
Qed.

(** Sorting by the baseline column moves the row index, [x], [y] and both
    series together. *)
Example pair_series_sorts_rows :
  pair_series Example.collaborators
              (mkFrame ["pep_1"; "pep_2"]
                       [("A", [2%R; 1%R]); ("B", [10%R; 20%R])])
              ["A"; "B"] "A" "B" "r-smooth" 3 None
  = Ok (mkPairSeries
          (mkFrame ["pep_2"; "pep_1"]
                   [("A", [1%R; 2%R]); ("B", [20%R; 10%R])])
          [1%R; 2%R] [20%R; 10%R] [20%R; 10%R]
          (mkSeries ["pep_2"; "pep_1"] [Rmax 1 20; Rmax 2 10])
          (mkSeries ["pep_2"; "pep_1"] [(20 - 20)%R; (10 - 10)%R])).
Proof.
  lazy -[Rmax Rminus IZR Rle_dec].
  repeat match goal with
         | |- context [Rle_dec ?a ?b] =>
             destruct (Rle_dec a b); try lra;
             lazy -[Rmax Rminus IZR Rle_dec]
         end.
  reflexivity.
Qed.

(** * Further properties of the code *)

(** ** [process_scores]: the shape and the column order of the result *)

(** X3.  The matrix [process_scores] returns has the row index of its input;
    each of its columns is the cell-by-cell transform of an input column of
    the same label, as long as that column; and it is well formed when the
    input is. *)
Theorem process_scores_shape
        (scores : DataFrame) (pairs : list Pair) (m : DataFrame) :
  process_scores scores pairs = Ok m ->
  df_index m = df_index scores
  /\ (forall label col,
         In (label, col) (df_columns m) ->
         exists col0,
           In (label, col0) (df_columns scores)
           /\ col = map spec_transform col0
           /\ List.length col = List.length col0)
  /\ (wf_frame scores -> wf_frame m).
Proof.
  intro Hm. rewrite process_scores_eq in Hm.
  destruct (loc_columns scores (np_unique (List.concat pairs)))
    as [r | e] eqn:Hloc; simpl in Hm; [| discriminate].
  injection Hm as <-. apply loc_columns_inv in Hloc. destruct Hloc as [_ ->].
  assert (Hcols : forall label col,
             In (label, col)
                (df_columns
                   (apply_values spec_transform
                      (mkFrame (df_index scores)
                         (flat_map (columns_named scores)
                                   (np_unique (List.concat pairs)))))) ->
             exists col0,
               In (label, col0) (df_columns scores)
               /\ col = map spec_transform col0
               /\ List.length col = List.length col0).
  { intros label col Hin. simpl in Hin. apply in_map_iff in Hin.
    destruct Hin as [[l0 col0] [Heq Hin]]. simpl in Heq.
    injection Heq as <- <-. apply in_flat_map in Hin.
    destruct Hin as [l [_ Hin]]. apply columns_named_In in Hin.
    exists col0. split; [tauto |]. split; [reflexivity | apply length_map]. }
  split; [reflexivity |]. split; [exact Hcols |].
  intro Hwf. unfold wf_frame in *. rewrite Forall_forall in *.
  intros [label col] Hin. destruct (Hcols _ _ Hin) as [col0 [Hin0 [_ Hlen]]].
  simpl. rewrite Hlen. exact (Hwf _ Hin0).
Qed.

(** X4.  With unique input labels, the columns of the matrix
    [process_scores] returns are in strictly ascending order of name,
    whatever the order in which the pairs mention them. *)
Theorem process_scores_columns_ascending
        (scores : DataFrame) (pairs : list Pair) (m : DataFrame) :
  NoDup (frame_labels scores) ->
  process_scores scores pairs = Ok m ->
  StronglySorted (fun a b => String.compare a b = Lt) (frame_labels m).
Proof.
  intros Hnd Hm. rewrite process_scores_eq in Hm.
  destruct (loc_columns scores (np_unique (List.concat pairs)))
    as [r | e] eqn:Hloc; simpl in Hm; [| discriminate].
  injection Hm as <-. apply loc_columns_inv in Hloc.
  destruct Hloc as [Hall ->]. rewrite frame_labels_apply_values.
  unfold frame_labels at 1. simpl.
  rewrite (selection_labels_unique _ _ Hnd Hall).
  apply np_unique_sorted.
Qed.

Lemma example_process_scores :
  exists restricted m,
    loc_columns Example.scores (np_unique (List.concat Example.pairs))
    = Ok restricted
    /\ process_scores Example.scores Example.pairs = Ok m
    /\ cell restricted 0 0 = Some (-10)%R
    /\ cell restricted 1 2 = Some 8%R.
Proof.
  eexists. eexists. split; [reflexivity |].
  split; [rewrite process_scores_eq; reflexivity |].
  split; reflexivity.
Qed.

Lemma process_scores_shape_witness :
  exists m,
    process_scores Example.scores Example.pairs = Ok m
    /\ df_index m = ["pep_1"; "pep_2"; "pep_3"]
    /\ wf_frame m.
Proof.
  destruct example_process_scores as [restricted [m [_ [Hm _]]]].
  destruct (process_scores_shape Example.scores Example.pairs m Hm)
    as [Hidx [_ Hwf]].
  exists m. split; [exact Hm |]. split; [exact Hidx |].
  apply Hwf. repeat constructor.
Defined.

Lemma process_scores_columns_ascending_witness :
  exists m,
    process_scores Example.scores [["B"; "A"]] = Ok m
    /\ StronglySorted (fun a b => String.compare a b = Lt) (frame_labels m).
Proof.
  assert (Hm : exists m, process_scores Example.scores [["B"; "A"]] = Ok m)
    by (rewrite process_scores_eq; eexists; reflexivity).
  destruct Hm as [m Hm]. exists m. split; [exact Hm |].
  apply (process_scores_columns_ascending Example.scores [["B"; "A"]] m);
    [| exact Hm].
  simpl. repeat constructor; simpl; intuition discriminate.
Defined.

(** ** Reading the pairs file and naming the transformed file *)

Lemma append_nil_r s : (s ++ "")%string = s.
Proof. induction s; simpl; congruence. Qed.

Lemma append_assoc s t u : ((s ++ t) ++ u)%string = (s ++ (t ++ u))%string.
Proof. induction s; simpl; congruence. Qed.

Lemma contains_char_app c s t :
  contains_char c (s ++ t) = contains_char c s || contains_char c t.
Proof.
  induction s as [| d s IH]; simpl; [reflexivity |].
  now rewrite IH, orb_assoc.
Qed.

Lemma split_on_not_nil sep s : split_on sep s <> [].
Proof.
  destruct s as [| c rest]; simpl; [discriminate |].
  destruct (Ascii.eqb c sep); [discriminate |].
  destruct (split_on sep rest); discriminate.
Qed.

Lemma split_on_no_sep sep s :
  contains_char sep s = false -> split_on sep s = [s].
Proof.
  induction s as [| c rest IH]; simpl; [reflexivity |].
  rewrite (Ascii.eqb_sym sep c). destruct (Ascii.eqb c sep); simpl;
    [discriminate |].
  intro H. now rewrite (IH H).
Qed.

Lemma split_on_app sep f rest :
  contains_char sep f = false ->
  split_on sep (f ++ String sep rest) = f :: split_on sep rest.
Proof.
  induction f as [| c f IH]; simpl.
  - intros _. now rewrite Ascii.eqb_refl.
  - rewrite (Ascii.eqb_sym sep c). destruct (Ascii.eqb c sep); simpl;
      [discriminate |].
    intro H. now rewrite (IH H).
Qed.

Lemma split_on_join sep s :
  String.concat (String sep "") (split_on sep s) = s.
Proof.
  induction s as [| c rest IH]; simpl; [reflexivity |].
  destruct (Ascii.eqb_spec c sep) as [-> | Hne].
  - pose proof (split_on_not_nil sep rest) as Hnn.
    destruct (split_on sep rest) as [| f fs]; [contradiction |].
    simpl in *. now rewrite IH.
  - pose proof (split_on_not_nil sep rest) as Hnn.
    destruct (split_on sep rest) as [| f fs]; [contradiction |].
    destruct fs as [| g gs]; simpl in *; now rewrite <- IH.
Qed.

Lemma join_split sep fields :
  fields <> [] ->
  Forall (fun f => contains_char sep f = false) fields ->
  split_on sep (String.concat (String sep "") fields) = fields.
Proof.
  induction fields as [| f fs IH]; intros Hnn Hall; [contradiction |].
  inversion Hall as [| ? ? Hf Hfs]; subst.
  destruct fs as [| g gs].
  - simpl. now apply split_on_no_sep.
  - change (String.concat (String sep "") (f :: g :: gs))
      with (f ++ String sep (String.concat (String sep "") (g :: gs)))%string.
    rewrite split_on_app by exact Hf.
    f_equal. apply IH; [discriminate | exact Hfs].
Qed.

Lemma remove_newlines_app s t :
  remove_newlines (s ++ t) = (remove_newlines s ++ remove_newlines t)%string.
Proof.
  induction s as [| c s IH]; cbn [append remove_newlines]; [reflexivity |].
  destruct (Ascii.eqb c newline); cbn [append]; now rewrite IH.
Qed.

Lemma remove_newlines_none s :
  contains_char newline s = false -> remove_newlines s = s.
Proof.
  induction s as [| c s IH]; cbn [contains_char remove_newlines];
    [reflexivity |].
  rewrite (Ascii.eqb_sym newline c).
  destruct (Ascii.eqb c newline); cbn [orb]; [discriminate |].
  intro H. now rewrite (IH H).
Qed.

Lemma contains_char_join c sep fields :
  Ascii.eqb c sep = false ->
  Forall (fun f => contains_char c f = false) fields ->
  contains_char c (String.concat (String sep "") fields) = false.
Proof.
  intros Hsep. induction 1 as [| f fs Hf _ IH]; [reflexivity |].
  destruct fs as [| g gs]; [exact Hf |].
  change (String.concat (String sep "") (f :: g :: gs))
    with (f ++ String sep (String.concat (String sep "") (g :: gs)))%string.
  rewrite contains_char_app, Hf. cbn [contains_char orb].
  now rewrite Hsep, IH.
Qed.

Lemma parse_pair_line fields :
  fields <> [] ->
  Forall (fun f => contains_char tab f = false
                   /\ contains_char newline f = false) fields ->
  parse_pair (String.concat (String tab "") fields ++ String newline "")
  = fields
  /\ parse_pair (String.concat (String tab "") fields) = fields.
Proof.
  intros Hnn Hall.
  assert (Htab : Forall (fun f => contains_char tab f = false) fields)
    by (eapply Forall_impl; [| exact Hall]; simpl; tauto).
  assert (Hnl : Forall (fun f => contains_char newline f = false) fields)
    by (eapply Forall_impl; [| exact Hall]; simpl; tauto).
  assert (Hjoin : remove_newlines (String.concat (String tab "") fields)
                  = String.concat (String tab "") fields).
  { apply remove_newlines_none, contains_char_join; [reflexivity | exact Hnl]. }
  unfold parse_pair. rewrite remove_newlines_app, Hjoin. simpl.
  rewrite append_nil_r. split; now apply join_split.
Qed.

(** X5.  A line of tab-separated fields parses to the tuple of those fields,
    with or without its final newline, provided there is at least one field
    and no field holds a tab or a newline; and joining the parsed fields
    with tabs gives any line back, less its newlines. *)
Theorem parse_pair_round_trip (fields : list string) (line : string) :
  (fields <> [] ->
   Forall (fun f => contains_char tab f = false
                    /\ contains_char newline f = false) fields ->
   parse_pair (String.concat (String tab "") fields ++ String newline "")
   = fields
   /\ parse_pair (String.concat (String tab "") fields) = fields)
  /\ String.concat (String tab "") (parse_pair line) = remove_newlines line.
Proof.
  split; [apply parse_pair_line | apply split_on_join].
Qed.

Lemma parse_pair_round_trip_witness :
  parse_pair (String.concat (String tab "") ["rep_1"; "rep_2"]
                ++ String newline "")
  = ["rep_1"; "rep_2"]
  /\ parse_pair (String.concat (String tab "") ["rep_1"; "rep_2"])
     = ["rep_1"; "rep_2"].
Proof.
  apply (parse_pair_round_trip ["rep_1"; "rep_2"] "").
  - discriminate.
  - repeat constructor.
Defined.

Lemma concat_empty_cons x xs :
  String.concat "" (x :: xs) = (x ++ String.concat "" xs)%string.
Proof. destruct xs; simpl; [now rewrite append_nil_r | reflexivity]. Qed.

Lemma readlines_app body rest :
  contains_char newline body = false ->
  readlines (body ++ String newline rest)
  = (body ++ String newline "")%string :: readlines rest.
Proof.
  induction body as [| c body IH]; cbn [append contains_char readlines].
  - intros _. now rewrite Ascii.eqb_refl.
  - rewrite (Ascii.eqb_sym newline c).
    destruct (Ascii.eqb c newline) eqn:E; cbn [orb]; [discriminate |].
    intro H. now rewrite (IH H).
Qed.


(** X7.  A pairs file that holds one line per pair, the fields of the pair
    joined by tabs and followed by a newline, is read back as exactly those
    pairs in order, provided every pair has a field and no field holds a
    tab or a newline. *)
Theorem pairs_file_round_trip (pairs : list Pair) :
  Forall (fun p : Pair =>
            p <> []
            /\ Forall (fun f => contains_char tab f = false
                                /\ contains_char newline f = false) p)
         pairs ->
  map parse_pair
      (readlines
         (String.concat ""
            (map (fun p : Pair =>
                    (String.concat (String tab "") p ++ String newline "")%string)
                 pairs)))
  = pairs.
Proof.
  induction 1 as [| p rest [Hnn Hp] _ IH]; [reflexivity |].
  rewrite map_cons, concat_empty_cons, append_assoc. simpl append at 2.
  rewrite readlines_app.
  - rewrite map_cons, IH. f_equal.
    now apply parse_pair_line.
  - apply contains_char_join; [reflexivity |].
    eapply Forall_impl; [| exact Hp]. simpl. tauto.
Qed.

Lemma pairs_file_round_trip_witness :
  map parse_pair
      (readlines
         (String.concat ""
            (map (fun p : Pair =>
                    (String.concat (String tab "") p ++ String newline "")%string)
                 Example.two_pairs)))
  = Example.two_pairs.
Proof.
  apply (pairs_file_round_trip Example.two_pairs).
  repeat constructor; discriminate.
Defined.

Lemma rsplit1_cases sep s :
  (contains_char sep s = false /\ rsplit1 sep s = [s])
  \/ (exists before after,
         rsplit1 sep s = [before; after]
         /\ s = (before ++ String sep after)%string
         /\ contains_char sep after = false).
Proof.
  induction s as [| c rest IH]; [left; auto |].
  simpl. destruct (contains_char sep rest) eqn:Hrest.
  - right. destruct IH as [[Hno _] | [b [a [Hr [Hs Ha]]]]]; [congruence |].
    rewrite Hr. exists (String c b), a. simpl. rewrite <- Hs. auto.
  - rewrite (Ascii.eqb_sym sep c).
    destruct (Ascii.eqb_spec c sep) as [-> | Hne].
    + right. exists "", rest. auto.
    + left. simpl. auto.
Qed.

(** X8.  Naming the transformed file never fails: the name is
    ["transformed_"] followed by the part of [scores_file] after its last
    slash, or by all of [scores_file] when it has no slash, so the name
    itself holds no slash after the prefix. *)
Theorem transformed_name_is_basename (scores_file : string) :
  exists basename,
    transformed_name scores_file = Ok ("transformed_" ++ basename)%string
    /\ contains_char slash basename = false
    /\ ((contains_char slash scores_file = false /\ scores_file = basename)
        \/ exists dir, scores_file = (dir ++ String slash basename)%string).
Proof.
  unfold transformed_name.
  destruct (rsplit1_cases slash scores_file)
    as [[Hno Hr] | [b [a [Hr [Hs Ha]]]]]; rewrite Hr; simpl.
  - exists scores_file. auto.
  - exists a. split; [reflexivity |]. split; [exact Ha |]. right. eauto.
Qed.

(** ** Lines 42-57: the order of the early failures *)

Lemma mbind_err {A B} (m : M A) (k : A -> M B) w e w1 :
  m w = (Err e, w1) -> mbind m k w = (Err e, w1).
Proof. intro H. unfold mbind. now rewrite H. Qed.

Lemma validate_accepts C a w :
  existsb (String.eqb (spline_type a)) (SPLINE_TYPES C) = true ->
  path_exists (table_dir a) (w_fs w) = false ->
  validate C a w = (Ok tt, w).
Proof.
  intros H1 H2. unfold validate, mbind, py_assert, os_path_exists.
  rewrite H1. simpl. now rewrite H2.
Qed.

Lemma os_mkdir_runs path w :
  path_exists path (w_fs w) = false ->
  os_mkdir path w = (Ok tt, after_mkdir path w).
Proof. intro H. unfold os_mkdir. now rewrite H. Qed.

Lemma path_exists_after_mkdir path w :
  path_exists path (w_fs (after_mkdir path w)) = true.
Proof. unfold path_exists. simpl. now rewrite String.eqb_refl. Qed.

Lemma body_rejects_spline_type C a w volcano zscatter :
  ctx_get_action C "ps-plot" "volcano" = Ok volcano ->
  ctx_get_action C "ps-plot" "zscatter" = Ok zscatter ->
  existsb (String.eqb (spline_type a)) (SPLINE_TYPES C) = false ->
  make_psea_table_body C a w
  = (Err (AssertionError
            ("'" ++ spline_type a ++ "' is not a valid spline method!")%string),
     w).
Proof.
  intros Hv Hz Hs. unfold make_psea_table_body.
  erewrite mbind_step by (unfold lift; rewrite Hv; reflexivity).
  erewrite mbind_step by (unfold lift; rewrite Hz; reflexivity).
  apply mbind_err. now apply validate_rejects_spline_type.
Qed.

Lemma body_rejects_existing_dir C a w volcano zscatter :
  ctx_get_action C "ps-plot" "volcano" = Ok volcano ->
  ctx_get_action C "ps-plot" "zscatter" = Ok zscatter ->
  existsb (String.eqb (spline_type a)) (SPLINE_TYPES C) = true ->
  path_exists (table_dir a) (w_fs w) = true ->
  make_psea_table_body C a w
  = (Err (AssertionError
            ("'" ++ table_dir a
                 ++ "' already exists! Please move or remove this directory.")%string),
     w).
Proof.
  intros Hv Hz Hs Hd. unfold make_psea_table_body.
  erewrite mbind_step by (unfold lift; rewrite Hv; reflexivity).
  erewrite mbind_step by (unfold lift; rewrite Hz; reflexivity).
  apply mbind_err. now apply validate_rejects_existing_dir.
Qed.

(** X9.  Lines 42-50 fail in a fixed order and without touching the world:
    a failure to resolve [volcano], then one to resolve [zscatter], comes
    before any validation; an unsupported [spline_type] is reported before
    an existing [table_dir], each by an [AssertionError] whose message
    quotes the offending value. *)
Theorem body_fails_in_order (C : Collaborators) (a : Args) (w : World) :
  (forall e,
      ctx_get_action C "ps-plot" "volcano" = Err e ->
      make_psea_table_body C a w = (Err e, w))
  /\ (forall volcano e,
         ctx_get_action C "ps-plot" "volcano" = Ok volcano ->
         ctx_get_action C "ps-plot" "zscatter" = Err e ->
         make_psea_table_body C a w = (Err e, w))
  /\ (forall volcano zscatter,
         ctx_get_action C "ps-plot" "volcano" = Ok volcano ->
         ctx_get_action C "ps-plot" "zscatter" = Ok zscatter ->
         existsb (String.eqb (spline_type a)) (SPLINE_TYPES C) = false ->
         make_psea_table_body C a w
         = (Err (AssertionError
                   ("'" ++ spline_type a
                        ++ "' is not a valid spline method!")%string), w))
  /\ (forall volcano zscatter,
         ctx_get_action C "ps-plot" "volcano" = Ok volcano ->
         ctx_get_action C "ps-plot" "zscatter" = Ok zscatter ->
         existsb (String.eqb (spline_type a)) (SPLINE_TYPES C) = true ->
         path_exists (table_dir a) (w_fs w) = true ->
         make_psea_table_body C a w
         = (Err (AssertionError
                   ("'" ++ table_dir a
                        ++ "' already exists! Please move or remove this directory.")%string),
            w)).
Proof.
  repeat split.
  - intros e Hv. unfold make_psea_table_body.
    apply mbind_err. unfold lift. now rewrite Hv.
  - intros volcano e Hv Hz. unfold make_psea_table_body.
    erewrite mbind_step by (unfold lift; rewrite Hv; reflexivity).
    apply mbind_err. unfold lift. now rewrite Hz.
  - intros. eapply body_rejects_spline_type; eauto.
  - intros. eapply body_rejects_existing_dir; eauto.
Qed.

Lemma body_fails_in_order_witness :
  make_psea_table_body Example.collaborators Example.args_linear Example.world
  = (Err (AssertionError "'linear' is not a valid spline method!"),
     Example.world)
  /\ make_psea_table_body Example.collaborators Example.args
                          Example.world_with_outdir
     = (Err (AssertionError
               "'./psea_table_outdir' already exists! Please move or remove this directory."),
        Example.world_with_outdir).
Proof.
  split.
  - destruct (body_fails_in_order Example.collaborators Example.args_linear
                                  Example.world) as [_ [_ [H _]]].
    apply (H (fun _ _ => Ok ["volcano"]) (fun _ _ => Ok ["zscatter"]));
      reflexivity.
  - destruct (body_fails_in_order Example.collaborators Example.args
                                  Example.world_with_outdir) as [_ [_ [_ H]]].
    apply (H (fun _ _ => Ok ["volcano"]) (fun _ _ => Ok ["zscatter"]));
      reflexivity.
Defined.

(** X10.  The output directory is created before any input is read: when
    the arguments pass validation and the pairs file cannot be opened, lines
    42-168 fail with the error of [open] and leave the new, empty
    [table_dir] behind and nothing else changed; the same call made again
    then fails validation, because [table_dir] now exists. *)
Theorem missing_pairs_file_leaves_directory
        (C : Collaborators) (a : Args) (w : World) (volcano zscatter : Action) :
  ctx_get_action C "ps-plot" "volcano" = Ok volcano ->
  ctx_get_action C "ps-plot" "zscatter" = Ok zscatter ->
  existsb (String.eqb (spline_type a)) (SPLINE_TYPES C) = true ->
  path_exists (table_dir a) (w_fs w) = false ->
  file_content (pairs_file a) (w_fs w) = None ->
  exists e,
    (e = FileNotFoundError (pairs_file a)
     \/ e = IsADirectoryError (pairs_file a))
    /\ make_psea_table_body C a w = (Err e, after_mkdir (table_dir a) w)
    /\ make_psea_table_body C a (after_mkdir (table_dir a) w)
       = (Err (AssertionError
                 ("'" ++ table_dir a
                      ++ "' already exists! Please move or remove this directory.")%string),
          after_mkdir (table_dir a) w).
Proof.
  intros Hv Hz Hs Hd Hp.
  assert (Hopen : exists e,
             (e = FileNotFoundError (pairs_file a)
              \/ e = IsADirectoryError (pairs_file a))
             /\ open_readlines (pairs_file a) (after_mkdir (table_dir a) w)
                = (Err e, after_mkdir (table_dir a) w)).
  { unfold open_readlines. simpl w_fs. unfold file_content in *. simpl fs_files.
    rewrite Hp. simpl option_map.
    destruct (existsb (String.eqb (pairs_file a)) _);
      eexists; (split; [| reflexivity]); auto. }
  destruct Hopen as [e [He Hopen]]. exists e. split; [exact He |]. split.
  - unfold make_psea_table_body.
    erewrite mbind_step by (unfold lift; rewrite Hv; reflexivity).
    erewrite mbind_step by (unfold lift; rewrite Hz; reflexivity).
    erewrite mbind_step by (now apply validate_accepts).
    erewrite mbind_step by (now apply os_mkdir_runs).
    now apply mbind_err.
  - apply (body_rejects_existing_dir C a _ volcano zscatter Hv Hz Hs).
    apply path_exists_after_mkdir.
Qed.

Lemma missing_pairs_file_leaves_directory_witness :
  exists e,
    (e = FileNotFoundError "pairs.tsv" \/ e = IsADirectoryError "pairs.tsv")
    /\ make_psea_table_body Example.collaborators Example.args
                            Example.world_without_pairs
       = (Err e, after_mkdir "./psea_table_outdir" Example.world_without_pairs)
    /\ make_psea_table_body
         Example.collaborators Example.args
         (after_mkdir "./psea_table_outdir" Example.world_without_pairs)
       = (Err (AssertionError
                 "'./psea_table_outdir' already exists! Please move or remove this directory."),
          after_mkdir "./psea_table_outdir" Example.world_without_pairs).
Proof.
  apply (missing_pairs_file_leaves_directory
           Example.collaborators Example.args Example.world_without_pairs
           (fun _ _ => Ok ["volcano"]) (fun _ _ => Ok ["zscatter"]));
    reflexivity.
Defined.

(** ** The per-pair loop: tables, progress lines and failures *)

Lemma file_content_put_same path content fs :
  file_content path (fs_put path content fs) = Some content.
Proof. unfold file_content, fs_put. simpl. now rewrite String.eqb_refl. Qed.

Lemma file_content_put_other path content fs q :
  q <> path -> file_content q (fs_put path content fs) = file_content q fs.
Proof.
  intro Hne. unfold file_content, fs_put. simpl.
  destruct (String.eqb_spec q path) as [E | _]; [contradiction |].
  f_equal. induction (fs_files fs) as [| f t IH]; simpl; [reflexivity |].
  destruct (String.eqb_spec path (fst f)) as [E | Hp]; simpl.
  - destruct (String.eqb_spec q (fst f)) as [E' | _]; [congruence | exact IH].
  - destruct (String.eqb q (fst f)); [reflexivity | exact IH].
Qed.

Lemma file_content_put_keeps path content fs q :
  file_content q fs <> None ->
  file_content q (fs_put path content fs) <> None.
Proof.
  intro H. destruct (String.eqb_spec q path) as [-> | Hne].
  - rewrite file_content_put_same. discriminate.
  - now rewrite file_content_put_other.
Qed.

Lemma pair_step_world C a taxa dof df psets pair st w st' w' :
  pair_step C a taxa dof df psets pair st w = (Ok st', w') ->
  exists ps table,
    pair_series C df pair (nth 0 pair "") (nth 1 pair "")
                (spline_type a) (degree a) dof = Ok ps
    /\ titles st' = titles st ++ [label_of pair]
    /\ w_fs w' = fs_put (table_path a pair) (to_csv C (PTable table)) (w_fs w)
    /\ w_stdout w' = w_stdout w ++ [progress_line pair]
    /\ w_trace w'
       = w_trace w ++ [CallPsea (ps_maxZ ps) (ps_deltaZ ps);
                       WriteFile (table_path a pair) (PTable table)].
Proof.
  unfold pair_step. intro H.
  apply mbind_ok in H. destruct H as [p0 [w1 [H0 H]]].
  apply lift_ok in H0. destruct H0 as [H0 ->].
  apply mbind_ok in H. destruct H as [p1 [w1 [H1 H]]].
  apply lift_ok in H1. destruct H1 as [H1 ->].
  assert (Hlen : nth 0 pair "" = p0 /\ nth 1 pair "" = p1).
  { unfold py_index in H0, H1.
    destruct pair as [| x [| y t]]; simpl in *; try discriminate.
    injection H0 as <-. injection H1 as <-. auto. }
  destruct Hlen as [E0 E1].
  apply mbind_ok in H. destruct H as [[] [w1 [Hp H]]].
  unfold print in Hp. injection Hp as <-.
  apply mbind_ok in H. destruct H as [ps [w2 [Hps H]]].
  apply lift_ok in Hps. destruct Hps as [Hps ->].
  apply mbind_ok in H. destruct H as [table [w3 [Ht H]]].
  unfold call_psea in Ht. injection Ht as Ht <-.
  apply mbind_ok in H. destruct H as [[] [w4 [Hw H]]].
  unfold write_file in Hw. injection Hw as <-.
  apply mbind_ok in H. destruct H as [taxa_col [w5 [Hc H]]].
  apply lift_ok in Hc. destruct Hc as [Hc ->].
  unfold ret in H. injection H as <- <-.
  exists ps, table. unfold table_path, progress_line, label_of.
  rewrite E0, E1. simpl. rewrite <- app_assoc. auto.
Qed.

Lemma pair_loop_world C a taxa dof df psets :
  forall pairs st w st' w',
    pair_loop C a taxa dof df psets pairs st w = (Ok st', w') ->
    (exists evs,
        w_trace w' = w_trace w ++ evs
        /\ table_writes evs = map (table_path a) pairs
        /\ List.length (psea_calls evs) = List.length pairs)
    /\ w_stdout w' = w_stdout w ++ map progress_line pairs
    /\ fs_dirs (w_fs w') = fs_dirs (w_fs w)
    /\ (forall q, file_content q (w_fs w) <> None ->
                  file_content q (w_fs w') <> None)
    /\ (forall p, In p pairs -> file_content (table_path a p) (w_fs w') <> None).
Proof.
  induction pairs as [| p rest IH]; intros st w st' w' H.
  - simpl in H. unfold ret in H. injection H as <- <-.
    rewrite !app_nil_r. repeat split; auto; try contradiction.
    exists []. now rewrite app_nil_r.
  - simpl in H. apply mbind_ok in H. destruct H as [st1 [w1 [Hstep Hrest]]].
    apply pair_step_world in Hstep.
    destruct Hstep as [ps [table [_ [_ [Hfs [Hout Htr]]]]]].
    apply IH in Hrest.
    destruct Hrest as [[evs [Hevs [Htw Hpc]]] [Hout' [Hdirs [Hkeep Hnew]]]].
    split; [| split; [| split; [| split]]].
    + eexists. rewrite Hevs, Htr, <- app_assoc. split; [reflexivity |].
      unfold table_writes, psea_calls in *.
      rewrite !flat_map_app, Htw, length_app, Hpc. simpl. auto.
    + rewrite Hout', Hout, <- app_assoc. reflexivity.
    + rewrite Hdirs, Hfs. reflexivity.
    + intros q Hq. apply Hkeep. rewrite Hfs.
      now apply file_content_put_keeps.
    + intros q [<- | Hq]; [| now apply Hnew].
      apply Hkeep. rewrite Hfs, file_content_put_same. discriminate.
Qed.



(** X12.  A loop that completes has printed exactly one line
    ["Working on pair (baseline, treatment)..."] per pair, in input order,
    and nothing else. *)
Theorem loop_prints_progress
        (C : Collaborators) (a : Args) (taxa_access : string) (dof : option Z)
        (processed_scores : DataFrame) (peptide_sets : PeptideSets)
        (pairs : list Pair) (st st' : LoopState) (w w' : World) :
  pair_loop C a taxa_access dof processed_scores peptide_sets pairs st w
  = (Ok st', w') ->
  w_stdout w' = w_stdout w ++ map progress_line pairs.
Proof. intro H. apply pair_loop_world in H. tauto. Qed.

Lemma loop_prints_progress_witness :
  exists st' w',
    pair_loop Example.collaborators Example.args "ID" None Example.one_row []
              Example.two_pairs initial_state Example.world = (Ok st', w')
    /\ w_stdout w'
       = [Line "Working on pair (A, B)..."; Line "Working on pair (C, A)..."].
Proof.
  assert (Hrun : exists st' w',
             pair_loop Example.collaborators Example.args "ID" None
                       Example.one_row [] Example.two_pairs initial_state
                       Example.world = (Ok st', w'))
    by (eexists; eexists; reflexivity).
  destruct Hrun as [st' [w' Hrun]]. exists st', w'. split; [exact Hrun |].
  exact (loop_prints_progress _ _ _ _ _ _ _ _ _ _ _ Hrun).
Defined.

Lemma pair_step_keeps_files C a taxa dof df psets pair st w r w' :
  pair_step C a taxa dof df psets pair st w = (r, w') ->
  forall q, file_content q (w_fs w) <> None -> file_content q (w_fs w') <> None.
Proof.
  unfold pair_step. intros H q Hq.
  apply mbind_run in H. destruct H as [[e [H _]] | [p0 [w1 [H0 H]]]];
    [unfold lift in H; now injection H as _ <- |].
  unfold lift in H0. injection H0 as _ <-.
  apply mbind_run in H. destruct H as [[e [H _]] | [p1 [w1 [H1 H]]]];
    [unfold lift in H; now injection H as _ <- |].
  unfold lift in H1. injection H1 as _ <-.
  apply mbind_run in H. destruct H as [[e [H _]] | [[] [w1 [Hp H]]]];
    [unfold print in H; discriminate |].
  unfold print in Hp. injection Hp as <-.
  apply mbind_run in H. destruct H as [[e [H _]] | [ps [w2 [Hps H]]]];
    [unfold lift in H; now injection H as _ <- |].
  unfold lift in Hps. injection Hps as _ <-.
  apply mbind_run in H. destruct H as [[e [H _]] | [table [w3 [Ht H]]]];
    [unfold call_psea in H; now injection H as _ <- |].
  unfold call_psea in Ht. injection Ht as _ <-.
  apply mbind_run in H. destruct H as [[e [H _]] | [[] [w4 [Hw H]]]];
    [unfold write_file in H; discriminate |].
  unfold write_file in Hw. injection Hw as <-.
  assert (Hput : file_content q
                   (fs_put (table_dir a ++ "/" ++ (p0 ++ "~" ++ p1)
                                      ++ "_psea_table.tsv")%string
                           (to_csv C (PTable table)) (w_fs w)) <> None)
    by now apply file_content_put_keeps.
  apply mbind_run in H. destruct H as [[e [H _]] | [col [w5 [Hc H]]]];
    [unfold lift in H; now injection H as _ <- |].
  unfold lift in Hc. injection Hc as _ <-.
  unfold ret in H. now injection H as _ <-.
Qed.

Lemma pair_step_short C a taxa dof df psets pair st w :
  List.length pair < 2 ->
  pair_step C a taxa dof df psets pair st w
  = (Err (IndexError "index out of range"), w).
Proof.
  intro H. unfold pair_step, mbind, lift, py_index.
  destruct pair as [| x [| y t]]; simpl in *; try reflexivity. lia.
Qed.

(** X13.  The loop stops at the first pair whose iteration fails: the pairs
    after it are not processed, the loop ends with that iteration's error
    and world, and the result tables of the pairs before it stay in place. *)
Theorem loop_stops_at_first_failure
        (C : Collaborators) (a : Args) (taxa_access : string) (dof : option Z)
        (processed_scores : DataFrame) (peptide_sets : PeptideSets)
        (done : list Pair) (failing : Pair) (rest : list Pair)
        (st st1 : LoopState) (w w1 w2 : World) (e : PyError) :
  pair_loop C a taxa_access dof processed_scores peptide_sets done st w
  = (Ok st1, w1) ->
  pair_step C a taxa_access dof processed_scores peptide_sets failing st1 w1
  = (Err e, w2) ->
  pair_loop C a taxa_access dof processed_scores peptide_sets
            (done ++ failing :: rest) st w
  = (Err e, w2)
  /\ (forall p, In p done -> file_content (table_path a p) (w_fs w2) <> None).
Proof.
  intros Hdone Hfail. split.
  - revert st w Hdone. induction done as [| p t IH]; intros st w Hdone.
    + simpl in Hdone. unfold ret in Hdone. injection Hdone as -> ->.
      simpl. now apply mbind_err.
    + simpl in Hdone. apply mbind_ok in Hdone.
      destruct Hdone as [st0 [w0 [Hstep Hrest]]].
      simpl. rewrite (mbind_step _ _ _ _ _ Hstep). now apply IH.
  - intros p Hp. apply (pair_step_keeps_files _ _ _ _ _ _ _ _ _ _ _ Hfail).
    apply pair_loop_world in Hdone. destruct Hdone as [_ [_ [_ [_ Hn]]]].
    now apply Hn.
Qed.

Lemma loop_stops_at_first_failure_witness :
  exists w2,
    pair_loop Example.collaborators Example.args "ID" None Example.one_row []
              ([["A"; "B"]] ++ ["A"] :: [["C"; "A"]]) initial_state
              Example.world
    = (Err (IndexError "index out of range"), w2)
    /\ (forall p, In p [["A"; "B"]] ->
                  file_content (table_path Example.args p) (w_fs w2) <> None).
Proof.
  assert (Hdone : exists st1 w1,
             pair_loop Example.collaborators Example.args "ID" None
                       Example.one_row [] [["A"; "B"]] initial_state
                       Example.world = (Ok st1, w1))
    by (eexists; eexists; reflexivity).
  destruct Hdone as [st1 [w1 Hdone]]. exists w1.
  apply (loop_stops_at_first_failure
           Example.collaborators Example.args "ID" None Example.one_row []
           [["A"; "B"]] ["A"] [["C"; "A"]] initial_state st1
           Example.world w1 w1 _ Hdone).
  apply pair_step_short. simpl. lia.
Defined.

(** ** One pair: what sorting by the baseline keeps *)

Lemma insert_by_key_perm p l : Permutation (insert_by_key p l) (p :: l).
Proof.
  induction l as [| q t IH]; simpl; [reflexivity |].
  destruct (Rle_dec (fst p) (fst q)); [reflexivity |].
  rewrite IH. apply perm_swap.
Qed.

Lemma insertion_sort_perm l : Permutation (fold_right insert_by_key [] l) l.
Proof.
  induction l as [| p t IH]; simpl; [reflexivity |].
  rewrite insert_by_key_perm. now constructor.
Qed.

Lemma insert_by_key_sorted p l :
  StronglySorted (fun a b : R * nat => (fst a <= fst b)%R) l ->
  StronglySorted (fun a b : R * nat => (fst a <= fst b)%R) (insert_by_key p l).
Proof.
  induction 1 as [| q t Hs IH Hall]; simpl; [repeat constructor |].
  destruct (Rle_dec (fst p) (fst q)) as [Hle | Hnle].
  - constructor; [now constructor |]. constructor; [exact Hle |].
    eapply Forall_impl; [| exact Hall]. simpl. intros; lra.
  - constructor; [exact IH |].
    apply Forall_forall. intros x Hx.
    apply (Permutation_in _ (insert_by_key_perm p t)) in Hx.
    destruct Hx as [<- | Hx]; [lra |].
    rewrite Forall_forall in Hall. auto.
Qed.

Lemma insertion_sort_sorted l :
  StronglySorted (fun a b : R * nat => (fst a <= fst b)%R)
                 (fold_right insert_by_key [] l).
Proof.
  induction l; simpl; [constructor | now apply insert_by_key_sorted].
Qed.

Lemma combine_seq_In (keys : list R) :
  forall s k i,
    In (k, i) (combine keys (seq s (List.length keys))) ->
    s <= i < s + List.length keys /\ nth (i - s) keys 0%R = k.
Proof.
  induction keys as [| a t IH]; simpl; intros s k i H; [contradiction |].
  destruct H as [H | H].
  - injection H as <- <-. rewrite Nat.sub_diag. split; [lia | reflexivity].
  - apply IH in H. destruct H as [Hr Hn]. split; [lia |].
    replace (i - s) with (S (i - S s)) by lia. exact Hn.
Qed.

Lemma map_snd_combine_seq (keys : list R) s :
  map snd (combine keys (seq s (List.length keys))) = seq s (List.length keys).
Proof.
  revert s. induction keys as [| a t IH]; simpl; intro s; [reflexivity |].
  now rewrite IH.
Qed.

Lemma argsort_perm keys :
  Permutation (argsort keys) (seq 0 (List.length keys)).
Proof.
  unfold argsort.
  apply Permutation_trans
    with (map snd (combine keys (seq 0 (List.length keys)))).
  - apply Permutation_map, insertion_sort_perm.
  - now rewrite map_snd_combine_seq.
Qed.

Lemma take_argsort_keys keys :
  take 0%R keys (argsort keys)
  = map fst (fold_right insert_by_key []
                        (combine keys (seq 0 (List.length keys)))).
Proof.
  unfold take, argsort. rewrite map_map. apply map_ext_in.
  intros [k i] Hin. simpl.
  apply (Permutation_in _ (insertion_sort_perm _)) in Hin.
  apply combine_seq_In in Hin. destruct Hin as [_ Hn].
  now rewrite Nat.sub_0_r in Hn.
Qed.

Lemma take_argsort_sorted keys :
  StronglySorted Rle (take 0%R keys (argsort keys)).
Proof.
  rewrite take_argsort_keys.
  pose proof (insertion_sort_sorted
                (combine keys (seq 0 (List.length keys)))) as H.
  induction H as [| p t _ IH Hall]; simpl; constructor; auto.
  apply Forall_forall. intros x Hx. apply in_map_iff in Hx.
  destruct Hx as [q [<- Hq]]. rewrite Forall_forall in Hall. auto.
Qed.

Lemma take_seq {A} (d : A) l : take d l (seq 0 (List.length l)) = l.
Proof.
  apply (nth_ext _ _ d d).
  - unfold take. now rewrite length_map, length_seq.
  - unfold take. intros n Hn. rewrite length_map, length_seq in Hn.
    rewrite (nth_indep _ d ((fun i => nth i l d) 0))
      by (now rewrite length_map, length_seq).
    rewrite (map_nth (fun i => nth i l d)). now rewrite seq_nth.
Qed.

Lemma columns_named_map (f : Column -> Column) idx idx' cols label :
  (forall c, fst (f c) = fst c) ->
  columns_named (mkFrame idx' (map f cols)) label
  = map f (columns_named (mkFrame idx cols) label).
Proof.
  intro Hf. unfold columns_named. simpl.
  induction cols as [| c t IH]; simpl; [reflexivity |].
  rewrite Hf. destruct (String.eqb (fst c) label); simpl; now rewrite IH.
Qed.

Lemma sorted_column sel p0 sorted label col :
  sort_values sel p0 = Ok sorted ->
  column_by_label sorted label = Ok col ->
  exists keys col0,
    column_by_label sel p0 = Ok keys
    /\ column_by_label sel label = Ok col0
    /\ col = take 0%R col0 (argsort keys)
    /\ df_index sorted = take EmptyString (df_index sel) (argsort keys).
Proof.
  intros Hsort Hcol. apply sort_values_inv in Hsort.
  destruct Hsort as [keys [Hkeys ->]]. exists keys.
  unfold column_by_label in Hcol |- *.
  rewrite (columns_named_map
             (fun c : Column => (fst c, take 0%R (snd c) (argsort keys)))
             (df_index sel)) in Hcol by reflexivity.
  destruct sel as [idx cols]. simpl in *.
  destruct (columns_named (mkFrame idx cols) label) as [| c [| c' t]];
    simpl in Hcol; try discriminate.
  injection Hcol as <-. eauto.
Qed.

Lemma selected_column df labels sel label col :
  loc_columns df labels = Ok sel ->
  column_by_label sel label = Ok col ->
  In (label, col) (df_columns df) /\ df_index sel = df_index df.
Proof.
  intros Hsel Hcol. apply column_by_label_In in Hcol.
  apply loc_columns_inv in Hsel. destruct Hsel as [_ ->]. simpl in *.
  split; [| reflexivity].
  apply in_flat_map in Hcol. destruct Hcol as [l [_ Hin]].
  now apply columns_named_In in Hin.
Qed.


Lemma combine_map_same {A B D} (f : A -> B) (g : A -> D) l :
  combine (map f l) (map g l) = map (fun a => (f a, g a)) l.
Proof. induction l; simpl; congruence. Qed.

Lemma take_rows_perm (index : list string) (x0 y0 : list R) order :
  List.length x0 = List.length index ->
  List.length y0 = List.length index ->
  Permutation order (seq 0 (List.length index)) ->
  Permutation
    (combine (take EmptyString index order)
             (combine (take 0%R x0 order) (take 0%R y0 order)))
    (combine index (combine x0 y0)).
Proof.
  intros Hx Hy Hperm.
  set (row := fun i => (nth i index EmptyString, (nth i x0 0%R, nth i y0 0%R))).
  assert (Hrows : forall l,
             combine (take EmptyString index l)
                     (combine (take 0%R x0 l) (take 0%R y0 l))
             = map row l).
  { intro l. unfold take. now rewrite !combine_map_same. }
  assert (Ex : take 0%R x0 (seq 0 (List.length index)) = x0)
    by (rewrite <- Hx; apply take_seq).
  assert (Ey : take 0%R y0 (seq 0 (List.length index)) = y0)
    by (rewrite <- Hy; apply take_seq).
  rewrite Hrows.
  replace (combine index (combine x0 y0))
    with (map row (seq 0 (List.length index)))
    by (now rewrite <- Hrows, take_seq, Ex, Ey).
  now apply Permutation_map.
Qed.

(** X15.  Sorting keeps each feature with its own values: on a well-formed
    matrix, the rows (feature, x, y) of the sorted selection are a
    rearrangement of the rows (feature, baseline cell, treatment cell) of
    the matrix, none lost, repeated or mixed. *)
Theorem sorting_keeps_rows
        (C : Collaborators) (processed_scores : DataFrame) (pair : Pair)
        (p0 p1 spline_type : string) (degree : Z) (dof : option Z)
        (ps : PairSeries) :
  wf_frame processed_scores ->
  pair_series C processed_scores pair p0 p1 spline_type degree dof = Ok ps ->
  exists x0 y0,
    In (p0, x0) (df_columns processed_scores)
    /\ In (p1, y0) (df_columns processed_scores)
    /\ Permutation
         (combine (df_index (ps_sorted ps)) (combine (ps_x ps) (ps_y ps)))
         (combine (df_index processed_scores) (combine x0 y0)).
Proof.
  intros Hwf H. apply pair_series_inv in H.
  destruct H as [sel [diff [Hsel [Hsort [Hx [Hy _]]]]]].
  destruct (sorted_column _ _ _ _ _ Hsort Hx)
    as [keys [x0 [Hk [Hx0 [-> Hidx]]]]].
  destruct (sorted_column _ _ _ _ _ Hsort Hy)
    as [keys' [y0 [Hk' [Hy0 [-> _]]]]].
  rewrite Hk in Hk'. injection Hk' as <-.
  rewrite Hk in Hx0. injection Hx0 as <-.
  destruct (selected_column _ _ _ _ _ Hsel Hk) as [Hinx Hi].
  destruct (selected_column _ _ _ _ _ Hsel Hy0) as [Hiny _].
  unfold wf_frame in Hwf. rewrite Forall_forall in Hwf.
  pose proof (Hwf _ Hinx) as Lx. pose proof (Hwf _ Hiny) as Ly. simpl in Lx, Ly.
  exists keys, y0. split; [exact Hinx |]. split; [exact Hiny |].
  rewrite Hidx, Hi. apply take_rows_perm; auto.
  rewrite <- Lx. apply argsort_perm.
Qed.

Lemma max_list_ge l v : In v l -> (v <= max_list l)%R.
Proof.
  assert (H : forall t a, (a <= fold_left Rmax t a)%R
                          /\ forall v, In v t -> (v <= fold_left Rmax t a)%R).
  { induction t as [| b t IH]; intro a; simpl.
    - split; [lra | contradiction].
    - destruct (IH (Rmax a b)) as [Ha Ht].
      pose proof (Rmax_l a b). pose proof (Rmax_r a b).
      split; [lra |]. intros v0 [<- | Hv]; [lra | auto]. }
  destruct l as [| a t]; [contradiction |]. simpl.
  destruct (H t a) as [Ha Ht]. intros [<- | Hv]; auto.
Qed.

Lemma max_list_In l : l <> [] -> In (max_list l) l.
Proof.
  assert (H : forall t a, In (fold_left Rmax t a) (a :: t)).
  { induction t as [| b t IH]; intro a; simpl; [auto |].
    destruct (IH (Rmax a b)) as [H | H]; [| auto].
    rewrite <- H. unfold Rmax. destruct (Rle_dec a b); auto. }
  destruct l as [| a t]; [congruence |]. intros _. apply H.
Qed.

(** X16.  Entry [i] of [maxZ] is a cell of row [i] of the sorted selection
    and is at least the baseline value [x] and the treatment value [y] of
    that row. *)
Theorem maxZ_dominates
        (C : Collaborators) (processed_scores : DataFrame) (pair : Pair)
        (p0 p1 spline_type : string) (degree : Z) (dof : option Z)
        (ps : PairSeries) (i : nat) :
  pair_series C processed_scores pair p0 p1 spline_type degree dof = Ok ps ->
  i < List.length (df_index (ps_sorted ps)) ->
  In (nth i (s_data (ps_maxZ ps)) 0%R) (row_values (ps_sorted ps) i)
  /\ (nth i (ps_x ps) 0 <= nth i (s_data (ps_maxZ ps)) 0)%R
  /\ (nth i (ps_y ps) 0 <= nth i (s_data (ps_maxZ ps)) 0)%R.
Proof.
  intros H Hi. apply pair_series_inv in H.
  destruct H as [sel [diff [_ [_ [Hx [Hy [_ [Hmax _]]]]]]]].
  apply pd_Series_inv in Hmax. destruct Hmax as [-> _]. simpl.
  rewrite row_max_nth by exact Hi.
  apply column_by_label_In in Hx, Hy.
  assert (Hrow : forall l col,
             In (l, col) (df_columns (ps_sorted ps)) ->
             In (nth i col 0%R) (row_values (ps_sorted ps) i)).
  { intros l col Hin. unfold row_values.
    apply (in_map (fun c : Column => nth i (snd c) 0%R)) in Hin. exact Hin. }
  split; [| split; apply max_list_ge; eauto].
  apply max_list_In. intro Hnil.
  pose proof (Hrow _ _ Hx) as Hin. rewrite Hnil in Hin. contradiction.
Qed.

Lemma example_three_rows_series :
  exists ps,
    pair_series Example.collaborators Example.three_rows ["A"; "B"] "A" "B"
                "r-smooth" 3 None = Ok ps
    /\ df_index (ps_sorted ps) = ["pep_2"; "pep_1"; "pep_3"].
Proof.
  eexists. split.
  - lazy -[Rmax Rminus IZR Rle_dec].
    repeat match goal with
           | |- context [Rle_dec ?a ?b] =>
               destruct (Rle_dec a b); try lra;
               lazy -[Rmax Rminus IZR Rle_dec]
           end.
    reflexivity.
  - reflexivity.
Qed.


Lemma sorting_keeps_rows_witness :
  exists ps x0 y0,
    pair_series Example.collaborators Example.three_rows ["A"; "B"] "A" "B"
                "r-smooth" 3 None = Ok ps
    /\ In ("A", x0) (df_columns Example.three_rows)
    /\ In ("B", y0) (df_columns Example.three_rows)
    /\ Permutation
         (combine (df_index (ps_sorted ps)) (combine (ps_x ps) (ps_y ps)))
         (combine (df_index Example.three_rows) (combine x0 y0)).
Proof.
  destruct example_three_rows_series as [ps [Hps _]].
  destruct (sorting_keeps_rows Example.collaborators Example.three_rows
                               ["A"; "B"] "A" "B" "r-smooth" 3 None ps)
    as [x0 [y0 H]]; [repeat constructor | exact Hps |].
  exists ps, x0, y0. tauto.
Defined.

Lemma maxZ_dominates_witness :
  exists ps,
    pair_series Example.collaborators Example.three_rows ["A"; "B"] "A" "B"
                "r-smooth" 3 None = Ok ps
    /\ (nth 0 (ps_x ps) 0 <= nth 0 (s_data (ps_maxZ ps)) 0)%R
    /\ (nth 0 (ps_y ps) 0 <= nth 0 (s_data (ps_maxZ ps)) 0)%R.
Proof.
  destruct example_three_rows_series as [ps [Hps Hidx]].
  destruct (maxZ_dominates Example.collaborators Example.three_rows
                           ["A"; "B"] "A" "B" "r-smooth" 3 None ps 0 Hps)
    as [_ H]; [rewrite Hidx; simpl; lia |].
  exists ps. tauto.
Defined.

(** ** One iteration: the two series handed to the enrichment engine *)

Lemma take_nth {A} (d : A) l positions i :
  i < List.length positions ->
  nth i (take d l positions) d = nth (nth i positions 0) l d.
Proof.
  intro Hi. unfold take.
  rewrite (nth_indep _ d (nth 0 l d)) by now rewrite length_map.
  rewrite (map_nth (fun i => nth i l d)). reflexivity.
Qed.

(** [a - b] entry by entry, whichever way numpy aligned the operands, when
    the difference is as long as [a]. *)
Lemma np_sub_nth a b diff :
  np_sub a b = Ok diff -> List.length diff = List.length a ->
  forall i, i < List.length a ->
    nth i diff 0%R
    = (nth i a 0
       - nth (if Nat.eqb (List.length b) (List.length a) then i else 0%nat)
             b 0)%R.
Proof.
  intros H Hlen i Hi.
  destruct (Nat.eqb_spec (List.length b) (List.length a)) as [E | Hne].
  - destruct (np_sub_aligned _ _ _ H E) as [_ Hnth]. now apply Hnth.
  - unfold np_sub in H.
    destruct (Nat.eqb_spec (List.length a) (List.length b)) as [E | _];
      [congruence |].
    destruct b as [| w0 [| w1 t]].
    + destruct a as [| v [| v' t']]; try discriminate.
      injection H as <-. simpl in Hlen. discriminate.
    + assert (Hd : diff = map (fun v => (v - w0)%R) a)
        by (destruct a as [| v [| v' t']]; now injection H as <-).
      subst diff. simpl.
      rewrite (nth_indep _ 0%R ((fun v => (v - w0)%R) 0%R))
        by now rewrite length_map.
      now rewrite (map_nth (fun v => (v - w0)%R)).
    + destruct a as [| v [| v' t']]; try discriminate.
      injection H as <-. simpl in Hlen. discriminate.
Qed.

Lemma columns_named_nonempty df l :
  In l (frame_labels df) -> columns_named df l <> [].
Proof.
  unfold frame_labels. intros Hin Hnil. apply in_map_iff in Hin.
  destruct Hin as [c [Hfst Hc]].
  assert (H : In c (columns_named df l)) by (apply columns_named_In; auto).
  rewrite Hnil in H. contradiction.
Qed.

Lemma columns_named_selected df labels l :
  In l labels ->
  exists before after,
    filter (fun c : Column => String.eqb (fst c) l)
           (flat_map (columns_named df) labels)
    = before ++ columns_named df l ++ after.
Proof.
  induction labels as [| a t IH]; simpl; [contradiction |].
  intros [-> | Hin]; rewrite filter_app; unfold columns_named at 1;
    rewrite columns_named_twice.
  - rewrite String.eqb_refl. exists []. eexists. reflexivity.
  - destruct (IH Hin) as [before [after E]]. rewrite E.
    eexists (_ ++ before), after. now rewrite <- app_assoc.
Qed.

(** A column picked out of a selection by one of the selected labels is the
    one column the frame has under that label. *)
Lemma column_of_selection df labels sel l col :
  loc_columns df labels = Ok sel -> In l labels ->
  column_by_label sel l = Ok col -> column_by_label df l = Ok col.
Proof.
  intros Hsel Hin Hcol. apply loc_columns_inv in Hsel.
  destruct Hsel as [Hall ->].
  pose proof (columns_named_nonempty df l (Hall l Hin)) as Hne.
  unfold column_by_label in Hcol |- *. unfold columns_named at 1 in Hcol.
  simpl in Hcol.
  destruct (columns_named_selected df labels l Hin) as [before [after E]].
  rewrite E in Hcol.
  destruct (columns_named df l) as [| c [| c' t]]; [contradiction | |].
  - destruct before as [| b0 before]; simpl in Hcol.
    + destruct after; [exact Hcol | discriminate].
    + destruct before; discriminate.
  - destruct before as [| b0 [| b1 before]]; simpl in Hcol; discriminate.
Qed.

(** The selection for a two-field pair that the iteration can sort and
    read: the baseline column, then the treatment column. *)
Lemma selection_of_two df p0 p1 sel x0 y0 :
  loc_columns df [p0; p1] = Ok sel ->
  column_by_label sel p0 = Ok x0 -> column_by_label sel p1 = Ok y0 ->
  row_values sel = fun j => [nth j x0 0%R; nth j y0 0%R].
Proof.
  intros Hsel Hx Hy.
  pose proof (column_of_selection _ _ _ _ _ Hsel (or_introl eq_refl) Hx) as Hx0.
  pose proof (column_of_selection _ _ _ _ _ Hsel
                                  (or_intror (or_introl eq_refl)) Hy) as Hy0.
  apply loc_columns_inv in Hsel. destruct Hsel as [_ ->].
  unfold column_by_label in Hx0, Hy0. unfold row_values. simpl.
  destruct (columns_named df p0) as [| c0 [| c0' t0]]; try discriminate.
  destruct (columns_named df p1) as [| c1 [| c1' t1]]; try discriminate.
  injection Hx0 as <-. injection Hy0 as <-. reflexivity.
Qed.

Lemma row_values_sorted (idx : list string) (cols : list Column) order i :
  i < List.length order ->
  row_values (mkFrame (take EmptyString idx order)
                      (map (fun c : Column => (fst c, take 0%R (snd c) order))
                           cols)) i
  = row_values (mkFrame idx cols) (nth i order 0).
Proof.
  intro Hi. unfold row_values. simpl. rewrite map_map.
  apply map_ext. intro c. simpl. now apply take_nth.
Qed.

(** C9.  In an iteration that completes, the series [maxZ] and [deltaZ]
    handed to the enrichment engine carry one and the same index: the row
    index of the score matrix, reordered by a permutation that puts the
    baseline column [x0] in ascending order.  Entry [i] of each series
    belongs to the feature of the matrix row [j] that the permutation puts
    at [i]: the index of both series names that feature, [maxZ] holds the
    maximum of the selected columns in row [j] (for a two-field pair, the
    larger of the baseline and the treatment value of row [j]), and
    [deltaZ] holds the treatment value of row [j] less the value fitted at
    [i], where the fit is the one computed from the sorted baseline and
    treatment columns (a fit of one value is subtracted from every
    entry). *)
Theorem maxZ_deltaZ_share_index
        (C : Collaborators) (a : Args) (taxa_access : string) (dof : option Z)
        (processed_scores : DataFrame) (peptide_sets : PeptideSets)
        (pair : Pair) (st st' : LoopState) (w w' : World) :
  pair_step C a taxa_access dof processed_scores peptide_sets pair st w
  = (Ok st', w') ->
  exists selected x0 y0 order yfit maxZ deltaZ table,
    loc_columns processed_scores pair = Ok selected
    /\ column_by_label processed_scores (nth 0 pair "") = Ok x0
    /\ column_by_label processed_scores (nth 1 pair "") = Ok y0
    /\ Permutation order (seq 0 (List.length x0))
    /\ StronglySorted Rle (take 0%R x0 order)
    /\ fit_spline C (spline_type a) (take 0%R x0 order) (take 0%R y0 order)
                  (degree a) dof = Ok yfit
    /\ w_trace w'
       = w_trace w ++ [CallPsea maxZ deltaZ;
                       WriteFile (table_path a pair) (PTable table)]
    /\ s_index maxZ = take EmptyString (df_index processed_scores) order
    /\ s_index deltaZ = s_index maxZ
    /\ List.length (s_data maxZ) = List.length order
    /\ List.length (s_data deltaZ) = List.length order
    /\ (forall i, i < List.length order ->
          nth i (s_index maxZ) EmptyString
          = nth (nth i order 0) (df_index processed_scores) EmptyString
          /\ nth i (s_data maxZ) 0%R
             = max_list (row_values selected (nth i order 0))
          /\ nth i (s_data deltaZ) 0%R
             = (nth (nth i order 0%nat) y0 0
                - nth (if Nat.eqb (List.length yfit) (List.length order)
                       then i else 0%nat) yfit 0)%R)
    /\ (List.length pair = 2 ->
        forall i, i < List.length order ->
          nth i (s_data maxZ) 0%R
          = Rmax (nth (nth i order 0) x0 0%R) (nth (nth i order 0) y0 0%R)).
Proof.
  intro H. apply pair_step_ok in H.
  destruct H as [ps [table [Hps [Hlen [_ Htr]]]]].
  apply pair_series_inv in Hps.
  destruct Hps as [sel [diff [Hsel [Hsort [Hx [Hy [Hfit [Hmax [Hsub Hdelta]]]]]]]]].
  destruct (sorted_column _ _ _ _ _ Hsort Hx) as [keys [x0 [Hk [Hx0 [Ex _]]]]].
  assert (keys = x0) by congruence. subst keys.
  destruct (sorted_column _ _ _ _ _ Hsort Hy) as [keys [y0 [Hk' [Hy0 [Ey Eidx]]]]].
  assert (keys = x0) by congruence. subst keys. clear Hk Hk'.
  apply pd_Series_inv in Hmax. destruct Hmax as [Emax Lmax].
  apply pd_Series_inv in Hdelta. destruct Hdelta as [Edelta Ldelta].
  assert (Hidx : df_index sel = df_index processed_scores)
    by (apply loc_columns_inv in Hsel; destruct Hsel as [_ ->]; reflexivity).
  rewrite Hidx in Eidx.
  assert (Hn : List.length (df_index (ps_sorted ps))
               = List.length (argsort x0))
    by (rewrite Eidx; apply take_length).
  assert (Hyl : List.length (ps_y ps) = List.length (argsort x0))
    by (rewrite Ey; apply take_length).
  assert (Hrows : forall i, i < List.length (argsort x0) ->
            row_values (ps_sorted ps) i
            = row_values sel (nth i (argsort x0) 0)).
  { intros i Hi. apply sort_values_inv in Hsort.
    destruct Hsort as [keys [Hk ->]].
    assert (keys = x0) by congruence. subst keys.
    destruct sel as [idx cols]. simpl. now apply row_values_sorted. }
  assert (Hin0 : In (nth 0 pair "") pair) by (apply nth_In; lia).
  assert (Hin1 : In (nth 1 pair "") pair) by (apply nth_In; lia).
  exists sel, x0, y0, (argsort x0), (ps_yfit ps), (ps_maxZ ps), (ps_deltaZ ps),
         table.
  split; [exact Hsel |].
  split; [exact (column_of_selection _ _ _ _ _ Hsel Hin0 Hx0) |].
  split; [exact (column_of_selection _ _ _ _ _ Hsel Hin1 Hy0) |].
  split; [apply argsort_perm |].
  split; [apply take_argsort_sorted |].
  split; [rewrite <- Ex, <- Ey; exact Hfit |].
  split; [exact Htr |].
  rewrite Emax, Edelta. simpl.
  split; [exact Eidx |].
  split; [reflexivity |].
  split; [congruence |].
  split; [congruence |].
  assert (Hmaxi : forall i, i < List.length (argsort x0) ->
            nth i (row_max (ps_sorted ps)) 0%R
            = max_list (row_values sel (nth i (argsort x0) 0))).
  { intros i Hi. rewrite row_max_nth by (rewrite Hn; exact Hi).
    now rewrite Hrows. }
  split.
  - intros i Hi.
    split; [rewrite Eidx; now apply take_nth |].
    split; [now apply Hmaxi |].
    rewrite (np_sub_nth _ _ _ Hsub) by congruence.
    rewrite Hyl, Ey, take_nth by exact Hi. reflexivity.
  - intros Hpair i Hi. rewrite (Hmaxi i Hi).
    destruct pair as [| p0 [| p1 [| p2 t]]]; try discriminate. simpl in *.
    rewrite (selection_of_two _ _ _ _ _ _ Hsel Hx0 Hy0). reflexivity.
Qed.

(** One iteration on a matrix of three features whose baseline values are
    not in ascending order, with the diagonal as fitted curve. *)
Lemma example_three_rows_step :
  exists st' w',
    pair_step Example.collaborators_diagonal Example.args "ID" None
              Example.three_rows [] ["A"; "B"] initial_state Example.world
    = (Ok st', w')
    /\ w_trace w'
       = [CallPsea (mkSeries ["pep_2"; "pep_1"; "pep_3"]
                             [Rmax 1 20; Rmax 2 10; Rmax 3 30])
                   (mkSeries ["pep_2"; "pep_1"; "pep_3"]
                             [20 - 1; 10 - 2; 30 - 3]%R);
          WriteFile "./psea_table_outdir/A~B_psea_table.tsv"
                    (PTable Example.psea_columns)].
Proof.
  eexists. eexists. split.
  - lazy -[Rmax Rminus IZR Rle_dec].
    repeat match goal with
           | |- context [Rle_dec ?a ?b] =>
               destruct (Rle_dec a b); try lra;
               lazy -[Rmax Rminus IZR Rle_dec]
           end.
    reflexivity.
  - reflexivity.
Qed.

Lemma maxZ_deltaZ_share_index_witness :
  exists st' w' order yfit maxZ deltaZ table,
    pair_step Example.collaborators_diagonal Example.args "ID" None
              Example.three_rows [] ["A"; "B"] initial_state Example.world
    = (Ok st', w')
    /\ w_trace w'
       = [CallPsea maxZ deltaZ;
          WriteFile "./psea_table_outdir/A~B_psea_table.tsv" (PTable table)]
    /\ s_index maxZ = ["pep_2"; "pep_1"; "pep_3"]
    /\ s_index deltaZ = ["pep_2"; "pep_1"; "pep_3"]
    /\ s_data maxZ = [Rmax 1 20; Rmax 2 10; Rmax 3 30]
    /\ s_data deltaZ = [20 - 1; 10 - 2; 30 - 3]%R
    /\ Permutation order [0; 1; 2]
    /\ StronglySorted Rle (take 0%R [2%R; 1%R; 3%R] order)
    /\ yfit = take 0%R [2%R; 1%R; 3%R] order
    /\ s_index maxZ = take EmptyString ["pep_1"; "pep_2"; "pep_3"] order
    /\ (forall i, i < List.length order ->
          nth i (s_data maxZ) 0%R
          = Rmax (nth (nth i order 0) [2%R; 1%R; 3%R] 0%R)
                 (nth (nth i order 0) [10%R; 20%R; 30%R] 0%R)
          /\ nth i (s_data deltaZ) 0%R
             = (nth (nth i order 0%nat) [10; 20; 30] 0
                - nth (if Nat.eqb (List.length yfit) (List.length order)
                       then i else 0%nat) yfit 0)%R).
Proof.
  destruct example_three_rows_step as [st' [w' [Hrun Htrace]]].
  destruct (maxZ_deltaZ_share_index
              Example.collaborators_diagonal Example.args "ID" None
              Example.three_rows [] ["A"; "B"] initial_state st'
              Example.world w' Hrun)
    as [sel [x0 [y0 [order [yfit [maxZ [deltaZ [table H]]]]]]]].
  destruct H as [_ [Hx0 [Hy0 [Hperm [Hsorted [Hfit [Htr [Hi1 [_ [_ [_ [Hall Hmax]]]]]]]]]]]].
  injection Hx0 as <-. injection Hy0 as <-.
  rewrite Htrace in Htr. injection Htr as <- <- <-.
  injection Hfit as <-.
  exists st', w', order, (take 0%R [2%R; 1%R; 3%R] order).
  eexists. eexists. eexists.
  split; [exact Hrun |].
  split; [exact Htrace |].
  split; [reflexivity |]. split; [reflexivity |].
  split; [reflexivity |]. split; [reflexivity |].
  split; [exact Hperm |].
  split; [exact Hsorted |].
  split; [reflexivity |].
  split; [exact Hi1 |].
  intros i Hi. split; [exact (Hmax eq_refl i Hi) |].
  exact (proj2 (proj2 (Hall i Hi))).
Defined.

(** ** Lines 42-168 as a whole *)

Lemma validate_ok C a w w' :
  validate C a w = (Ok tt, w') ->
  existsb (String.eqb (spline_type a)) (SPLINE_TYPES C) = true
  /\ path_exists (table_dir a) (w_fs w) = false.
Proof.
  unfold validate, mbind, py_assert, os_path_exists, ret, raise.
  destruct (existsb _ _); simpl; [| discriminate].
  destruct (path_exists _ _); simpl; [discriminate | auto].
Qed.

Lemma with_tempdir_run {A} C (body : string -> M A) w r w' :
  with_tempdir C body w = (r, w') ->
  exists w1,
    body (mkdtemp C (w_fs w)) (after_mkdir (mkdtemp C (w_fs w)) w) = (r, w1)
    /\ w_trace w' = w_trace w1
    /\ w_fs w' = rmtree (mkdtemp C (w_fs w)) (w_fs w1).
Proof.
  unfold with_tempdir, after_mkdir.
  destruct (body _ _) as [r1 w1]. intro H. injection H as <- <-. eauto.
Qed.

Lemma tempdir_block_run C a zscatter volcano pairs df file tempdir w plots w' :
  tempdir_block C a zscatter volcano pairs df file tempdir w = (Ok plots, w') ->
  exists filtered peptide_sets st w1 w2 art,
    remove_peptides C df (peptide_sets_file a) (w_fs w1)
    = Ok (filtered, peptide_sets)
    /\ w_trace w1 = w_trace w ++ [WriteFile file (PFrame df)]
    /\ pair_loop C a (resolve_taxa_access (species_taxa_file a))
                 (resolve_dof (dof a)) filtered peptide_sets pairs
                 initial_state w1 = (Ok st, w2)
    /\ ctx_make_artifact C "FeatureTable[Zscore]" file
                         "PepsirfContingencyTSVFormat"
                         (fs_put (tempdir ++ "/spline_data.tsv")%string
                            (to_csv C (PSpline (pair_spline_dict st)))
                            (fs_put (tempdir ++ "/used_pairs.tsv")%string
                               (to_csv C (PPairs (used_pairs st))) (w_fs w2)))
       = Ok art
    /\ In (CallAction "ps-plot" "zscatter"
             (KwZscatter
                (mkZscatterKw art
                   (tempdir ++ "/used_pairs.tsv")%string
                   (tempdir ++ "/spline_data.tsv")%string
                   "p.adjust" "core_enrichment"
                   (resolve_taxa_access (species_taxa_file a))
                   (table_dir a) (p_val_thresh a))))
          (w_trace w')
    /\ exists evs, w_trace w' = w_trace w2 ++ evs.
Proof.
  unfold tempdir_block. intro H.
  apply mbind_ok in H. destruct H as [[] [w1 [Hw H]]].
  unfold write_file in Hw. injection Hw as Hw1.
  apply mbind_ok in H. destruct H as [[filtered psets] [w1' [Hf H]]].
  apply read_fs_ok in Hf. destruct Hf as [Hf ->].
  apply mbind_ok in H. destruct H as [st [w2 [Hloop H]]].
  apply mbind_ok in H. destruct H as [[] [w4 [Hw H]]].
  unfold write_file in Hw. injection Hw as <-.
  apply mbind_ok in H. destruct H as [frame [w5 [Hd H]]].
  apply lift_ok in Hd. destruct Hd as [Hd ->].
  assert (frame = pair_spline_dict st) as ->.
  { unfold pd_DataFrame_of_dict in Hd.
    destruct (_ && _); [now injection Hd | discriminate]. }
  apply mbind_ok in H. destruct H as [[] [w6 [Hw H]]].
  unfold write_file in Hw. injection Hw as <-.
  apply mbind_ok in H. destruct H as [art [w7 [Ha H]]].
  apply read_fs_ok in Ha. destruct Ha as [Ha ->].
  apply mbind_ok in H. destruct H as [scatter [w8 [Hz H]]].
  apply call_action_ok in Hz. subst w8.
  apply mbind_ok in H. destruct H as [volc [w9 [Hv H]]].
  apply call_action_ok in Hv. subst w9.
  unfold ret in H. injection H as _ <-.
  exists filtered, psets, st, w1, w2, art.
  split; [exact Hf |]. split; [rewrite <- Hw1; reflexivity |].
  split; [exact Hloop |]. split; [exact Ha |]. simpl. split.
  - apply in_or_app. left. apply in_or_app. right. now left.
  - eexists. rewrite <- !app_assoc. reflexivity.
Qed.

Lemma make_psea_table_body_run C a w plots w' :
  make_psea_table_body C a w = (Ok plots, w') ->
  exists volcano zscatter text scores processed file w1,
    existsb (String.eqb (spline_type a)) (SPLINE_TYPES C) = true
    /\ path_exists (table_dir a) (w_fs w) = false
    /\ file_content (pairs_file a) (w_fs w) = Some text
    /\ read_csv C (scores_file a) (w_fs (after_mkdir (table_dir a) w))
       = Ok scores
    /\ process_scores scores (map parse_pair (readlines text)) = Ok processed
    /\ transformed_name (scores_file a) = Ok file
    /\ tempdir_block C a zscatter volcano (map parse_pair (readlines text))
                     processed file
                     (mkdtemp C (w_fs (after_mkdir (table_dir a) w)))
                     (after_mkdir
                        (mkdtemp C (w_fs (after_mkdir (table_dir a) w)))
                        (after_mkdir (table_dir a) w))
       = (Ok plots, w1)
    /\ w_trace w' = w_trace w1
    /\ w_fs w'
       = rmtree (mkdtemp C (w_fs (after_mkdir (table_dir a) w))) (w_fs w1).
Proof.
  unfold make_psea_table_body. intro H.
  apply mbind_ok in H. destruct H as [volcano [w1 [Hv H]]].
  apply lift_ok in Hv. destruct Hv as [_ ->].
  apply mbind_ok in H. destruct H as [zscatter [w1 [Hz H]]].
  apply lift_ok in Hz. destruct Hz as [_ ->].
  apply mbind_ok in H. destruct H as [[] [w1 [Hval H]]].
  pose proof (validate_world _ _ _ _ _ Hval) as ->.
  apply validate_ok in Hval. destruct Hval as [Hs Hd].
  apply mbind_ok in H. destruct H as [[] [w1 [Hmk H]]].
  apply os_mkdir_ok in Hmk. subst w1. fold (after_mkdir (table_dir a) w) in H.
  apply mbind_ok in H. destruct H as [lines [w1 [Hl H]]].
  apply open_readlines_ok in Hl. destruct Hl as [-> [text [Htext ->]]].
  simpl in Htext.
  apply mbind_ok in H. destruct H as [scores [w1 [Hsc H]]].
  apply read_fs_ok in Hsc. destruct Hsc as [Hsc ->].
  apply mbind_ok in H. destruct H as [processed [w1 [Hp H]]].
  apply lift_ok in Hp. destruct Hp as [Hp ->].
  apply mbind_ok in H. destruct H as [file [w1 [Hn H]]].
  apply lift_ok in Hn. destruct Hn as [Hn ->].
  apply with_tempdir_run in H. destruct H as [w1 [H [Htr Hfs]]].
  exists volcano, zscatter, text, scores, processed, file, w1. auto 12.
Qed.

Lemma contains_char_remove_newlines c s :
  contains_char c (remove_newlines s) = true -> contains_char c s = true.
Proof.
  induction s as [| d s IH]; cbn [remove_newlines contains_char]; [auto |].
  destruct (Ascii.eqb d newline); cbn [contains_char].
  - intro H. rewrite (IH H). apply orb_true_r.
  - destruct (Ascii.eqb c d); [reflexivity | exact IH].
Qed.

(** X17.  A run of lines 42-168 completes only if every line of the pairs
    file holds a tab: a line without one, an empty last line included,
    gives a tuple with no treatment replicate, and its iteration raises
    [IndexError]. *)
Theorem completed_run_needs_tabs
        (C : Collaborators) (a : Args) (w : World)
        (plots : Artifact * Artifact) (w' : World) :
  make_psea_table_body C a w = (Ok plots, w') ->
  exists text,
    file_content (pairs_file a) (w_fs w) = Some text
    /\ Forall (fun line => contains_char tab line = true) (readlines text).
Proof.
  intro H. apply make_psea_table_body_run in H.
  destruct H as [vo [zs [text [sc [pr [file [w1 H]]]]]]].
  destruct H as [_ [_ [Htext [_ [_ [_ [Hblock _]]]]]]].
  exists text. split; [exact Htext |].
  apply tempdir_block_run in Hblock.
  destruct Hblock as [f [ps [st [w2 [w3 [art [_ [_ [Hloop _]]]]]]]]].
  apply pair_loop_ok in Hloop. destruct Hloop as [_ [_ [Hlen _]]].
  rewrite Forall_forall in *. intros line Hline.
  specialize (Hlen (parse_pair line) (in_map parse_pair _ _ Hline)).
  destruct (contains_char tab line) eqn:E; [reflexivity |].
  exfalso. unfold parse_pair in Hlen.
  destruct (contains_char tab (remove_newlines line)) eqn:E'.
  - apply contains_char_remove_newlines in E'. congruence.
  - rewrite (split_on_no_sep _ _ E') in Hlen. simpl in Hlen. lia.
Qed.

Lemma completed_run_needs_tabs_witness :
  exists plots w' text,
    make_psea_table_body Example.collaborators Example.args Example.world
    = (Ok plots, w')
    /\ file_content (pairs_file Example.args) (w_fs Example.world) = Some text
    /\ Forall (fun line => contains_char tab line = true) (readlines text).
Proof.
  destruct example_body_run as [plots [w' Hrun]].
  destruct (completed_run_needs_tabs _ _ _ _ _ Hrun) as [text H].
  exists plots, w', text. tauto.
Defined.

(** X18.  The transformed-scores file is written from the matrix
    [process_scores] returns, before the peptide filter is applied, and the
    artifact handed to [zscatter] as [zscores] is made from that file; the
    loop, in contrast, runs on the filtered matrix. *)
Theorem transformed_file_is_unfiltered
        (C : Collaborators) (a : Args) (w : World)
        (plots : Artifact * Artifact) (w' : World) :
  make_psea_table_body C a w = (Ok plots, w') ->
  exists text scores processed file filtered peptide_sets st fs1 fs2 w1 w2 art kw,
    file_content (pairs_file a) (w_fs w) = Some text
    /\ process_scores scores (map parse_pair (readlines text)) = Ok processed
    /\ transformed_name (scores_file a) = Ok file
    /\ In (WriteFile file (PFrame processed)) (w_trace w')
    /\ remove_peptides C processed (peptide_sets_file a) fs1
       = Ok (filtered, peptide_sets)
    /\ pair_loop C a (resolve_taxa_access (species_taxa_file a))
                 (resolve_dof (dof a)) filtered peptide_sets
                 (map parse_pair (readlines text)) initial_state w1
       = (Ok st, w2)
    /\ ctx_make_artifact C "FeatureTable[Zscore]" file
                         "PepsirfContingencyTSVFormat" fs2 = Ok art
    /\ In (CallAction "ps-plot" "zscatter" (KwZscatter kw)) (w_trace w')
    /\ z_zscores kw = art.
Proof.
  intro H. apply make_psea_table_body_run in H.
  destruct H as [vo [zs [text [sc [pr [file [w1 H]]]]]]].
  destruct H as [_ [_ [Htext [_ [Hp [Hn [Hblock [Htr _]]]]]]]].
  apply tempdir_block_run in Hblock.
  destruct Hblock
    as [f [ps [st [w2 [w3 [art [Hf [Hw [Hloop [Ha [Hz [evs Hevs]]]]]]]]]]]].
  pose proof (pair_loop_ok _ _ _ _ _ _ _ _ _ _ _ Hloop)
    as [_ [_ [_ [[evs' [Hevs' _]] _]]]].
  exists text, sc, pr, file, f, ps, st. eexists. eexists.
  exists w2, w3, art. eexists.
  split; [exact Htext |]. split; [exact Hp |]. split; [exact Hn |].
  split.
  { rewrite Htr, Hevs, Hevs', Hw.
    apply in_or_app. left. apply in_or_app. left.
    apply in_or_app. right. now left. }
  split; [exact Hf |]. split; [exact Hloop |]. split; [exact Ha |].
  split; [rewrite Htr; exact Hz | reflexivity].
Qed.

Lemma transformed_file_is_unfiltered_witness :
  exists plots w' processed art kw,
    make_psea_table_body Example.collaborators Example.args Example.world
    = (Ok plots, w')
    /\ In (WriteFile "transformed_scores.tsv" (PFrame processed)) (w_trace w')
    /\ In (CallAction "ps-plot" "zscatter" (KwZscatter kw)) (w_trace w')
    /\ z_zscores kw = art.
Proof.
  destruct example_body_run as [plots [w' Hrun]].
  destruct (transformed_file_is_unfiltered _ _ _ _ _ Hrun)
    as [text [sc [pr [file [f [ps [st [fs1 [fs2 [w1 [w2 [art [kw H]]]]]]]]]]]]].
  destruct H as [_ [_ [Hn [Hw [_ [_ [_ [Hz Hk]]]]]]]].
  assert (file = "transformed_scores.tsv") as -> by (now injection Hn).
  exists plots, w', pr, art, kw. auto.
Defined.

(** ** The taxon column name handed to the plotting actions *)

(** X20.  The taxon column name is ["species_name"] when
    [species_taxa_file] is not empty and ["ID"] when it is.  Every action
    called in a run of lines 42-168, however the run ends, is given that
    name as [taxa_access]; a run that completes has called exactly
    [zscatter], then [volcano]. *)
Theorem actions_given_taxa_access
        (C : Collaborators) (a : Args) (w : World)
        (r : Result (Artifact * Artifact)) (w' : World) :
  make_psea_table_body C a w = (r, w') ->
  (species_taxa_file a <> "" ->
   resolve_taxa_access (species_taxa_file a) = "species_name")
  /\ (species_taxa_file a = "" ->
      resolve_taxa_access (species_taxa_file a) = "ID")
  /\ exists calls,
       action_calls (w_trace w') = action_calls (w_trace w) ++ calls
       /\ Forall (fun c : string * Kwargs =>
                    kw_taxa_access (snd c)
                    = resolve_taxa_access (species_taxa_file a)) calls
       /\ (forall plots, r = Ok plots ->
                         map fst calls = ["zscatter"; "volcano"]).
Proof.
  intro Hrun.
  destruct (resolve_taxa_access_cases (species_taxa_file a)) as [H1 H2].
  split; [exact H1 |]. split; [exact H2 |].
  destruct (calls_make_psea_table_body C a w r w' Hrun) as [calls [E F]].
  exists calls. split; [exact E |]. split; [exact F |].
  intros plots ->. apply make_psea_table_body_ok in Hrun.
  destruct Hrun as [text [processed [file [tempdir [st [evs [art H]]]]]]].
  destruct H as [_ [_ [_ [Hall Htr]]]].
  rewrite Htr in E. rewrite !action_calls_app in E.
  rewrite (action_calls_loop_events evs Hall) in E. simpl in E.
  apply app_inv_head in E. rewrite <- E. reflexivity.
Qed.

Lemma actions_given_taxa_access_witness :
  exists plots w' calls,
    make_psea_table_body Example.collaborators Example.args_taxa Example.world
    = (Ok plots, w')
    /\ action_calls (w_trace w')
       = action_calls (w_trace Example.world) ++ calls
    /\ Forall (fun c : string * Kwargs =>
                 kw_taxa_access (snd c) = "species_name") calls
    /\ map fst calls = ["zscatter"; "volcano"].
Proof.
  destruct example_body_run_taxa as [plots [w' Hrun]].
  destruct (actions_given_taxa_access
              Example.collaborators Example.args_taxa Example.world _ _ Hrun)
    as [_ [_ [calls [E [F N]]]]].
  exists plots, w', calls. split; [exact Hrun |]. split; [exact E |].
  split; [exact F | exact (N plots eq_refl)].
Defined.
